(** * SimpleBot: the dispatch pipeline of [simplebot/__init__.py]

    A shallow embedding of class [SimpleBot] (the listener registries,
    [on_message], [on_command], [activate_plugins], [deactivate_plugins])
    and the properties of its dispatch pipeline.

    Plugin callbacks are opaque Python callables.  They are modelled as
    functions that receive the message as the dispatcher holds it at the
    time of the call, act on a plugin-owned store [PS], and either return
    a value or raise an [Exception]; what a callback might write to the
    message or to the registries is outside the model, and so are failures
    of the logger and of the account.  The calls the dispatcher makes on
    its logger, on the account and on the callbacks are recorded, in
    order, in a trace of events. *)

From stdpp Require Import base gmap sets list strings.
From stdpp Require Import pretty.


(** ** Data *)

(** An instance of Python's [Exception], as [logger.exception] gets it. *)
Definition exn := string.

(** How a call of a Python callable ends. *)
Inductive outcome (A : Type) : Type :=
| Returned (a : A)
| Raised (ex : exn).
Arguments Returned {A} a.
Arguments Raised {A} ex.

(** The identity of a callable object: what a [set] hashes and compares. *)
Definition callable := nat.

(** The inbound item.  [chat_version] is what
    [msg.get_mime_headers()['chat-version']] evaluates to, [sender_addr]
    is [msg.get_sender_contact().addr], and [user_agent] is the attribute
    [on_command] assigns ([None] while it has not been assigned). *)
Record Message : Type := {
  msg_id : nat;
  chat_version : option string;
  sender_addr : string;
  msg_text : string;
  user_agent : option string
}.

Definition set_user_agent (ua : string) (msg : Message) : Message :=
  {| msg_id := msg_id msg;
     chat_version := chat_version msg;
     sender_addr := sender_addr msg;
     msg_text := msg_text msg;
     user_agent := Some ua |}.

(** What the dispatcher does to the outside, in the order it does it. *)
Inductive event : Type :=
| LogDebug (s : string)                      (* self.logger.debug(s) *)
| LogException (ex : exn)                    (* self.logger.exception(ex) *)
| DeleteMessages (msg : Message)             (* self.account.delete_messages((msg,)) *)
| MarkSeenMessages (msg : Message)           (* self.account.mark_seen_messages([msg]) *)
| CallDetected (l : callable) (msg : Message) (text : string)
| CallFilter (f : callable) (msg : Message) (text : string)
| CallCommand (cmd : string) (h : callable) (msg : Message) (args : string)
| CallProcessed (l : callable) (msg : Message) (processed : bool)
| CallActivate (plugin : string)
| CallDeactivate (plugin : string).

(** ** A state and trace monad *)

Definition M (S A : Type) : Type := S → A * S * list event.

Definition ret {S A} (a : A) : M S A := λ s, (a, s, []).

Definition bind {S A B} (c : M S A) (k : A → M S B) : M S B :=
  λ s, let '(a, s1, tr1) := c s in
       let '(b, s2, tr2) := k a s1 in
       (b, s2, tr1 ++ tr2).

Definition emit {S} (e : event) : M S unit := λ s, (tt, s, [e]).

Declare Scope dispatch_scope.
Delimit Scope dispatch_scope with dispatch.
Notation "x <- c1 ;; c2" := (bind c1 (λ x, c2))
  (at level 100, c1 at next level, right associativity) : dispatch_scope.
Notation "c1 ;; c2" := (bind c1 (λ _, c2))
  (at level 100, right associativity) : dispatch_scope.
Open Scope dispatch_scope.

Definition result {S A} (r : A * S * list event) : A := r.1.1.
Definition final {S A} (r : A * S * list event) : S := r.1.2.
Definition trace {S A} (r : A * S * list event) : list event := r.2.


(** ** The registries *)

(** The part of [SimpleBot] the dispatcher reads.  The four listener
    collections are Python [set]s of callables.  [commands] and [filters]
    are attributes of the base class [DeltaBot]: [commands] is a [dict]
    from a command name to a tuple whose last component is the callback,
    kept here in insertion order with that last component as the value;
    [filters] is a list of callbacks.  A [for] over one of the sets visits
    [elements] of it: one order per set, and no property below depends on
    which. *)
Record SimpleBot : Type := {
  _mdl : gset callable;
  _mpl : gset callable;
  _cdl : gset callable;
  _cpl : gset callable;
  commands : list (string * callable);
  filters : list callable
}.

Definition add_on_msg_detected_listener (listener : callable) (self : SimpleBot) : SimpleBot :=
  {| _mdl := {[listener]} ∪ _mdl self; _mpl := _mpl self; _cdl := _cdl self;
     _cpl := _cpl self; commands := commands self; filters := filters self |}.

Definition add_on_msg_processed_listener (listener : callable) (self : SimpleBot) : SimpleBot :=
  {| _mdl := _mdl self; _mpl := {[listener]} ∪ _mpl self; _cdl := _cdl self;
     _cpl := _cpl self; commands := commands self; filters := filters self |}.

Definition remove_on_msg_detected_listener (listener : callable) (self : SimpleBot) : SimpleBot :=
  {| _mdl := _mdl self ∖ {[listener]}; _mpl := _mpl self; _cdl := _cdl self;
     _cpl := _cpl self; commands := commands self; filters := filters self |}.

Definition remove_on_msg_processed_listener (listener : callable) (self : SimpleBot) : SimpleBot :=
  {| _mdl := _mdl self; _mpl := _mpl self ∖ {[listener]}; _cdl := _cdl self;
     _cpl := _cpl self; commands := commands self; filters := filters self |}.

Definition add_on_cmd_detected_listener (listener : callable) (self : SimpleBot) : SimpleBot :=
  {| _mdl := _mdl self; _mpl := _mpl self; _cdl := {[listener]} ∪ _cdl self;
     _cpl := _cpl self; commands := commands self; filters := filters self |}.

Definition add_on_cmd_processed_listener (listener : callable) (self : SimpleBot) : SimpleBot :=
  {| _mdl := _mdl self; _mpl := _mpl self; _cdl := _cdl self;
     _cpl := {[listener]} ∪ _cpl self; commands := commands self; filters := filters self |}.

Definition remove_on_cmd_detected_listener (listener : callable) (self : SimpleBot) : SimpleBot :=
  {| _mdl := _mdl self; _mpl := _mpl self; _cdl := _cdl self ∖ {[listener]};
     _cpl := _cpl self; commands := commands self; filters := filters self |}.

Definition remove_on_cmd_processed_listener (listener : callable) (self : SimpleBot) : SimpleBot :=
  {| _mdl := _mdl self; _mpl := _mpl self; _cdl := _cdl self;
     _cpl := _cpl self ∖ {[listener]}; commands := commands self; filters := filters self |}.

(** [for cmd in self.commands]: the keys, in insertion order. *)
Definition dict_keys (d : list (string * callable)) : list string := d.*1.

(** [self.commands[cmd][-1]]. *)
Fixpoint dict_get (cmd : string) (d : list (string * callable)) : option callable :=
  match d with
  | [] => None
  | (k, v) :: d' => if decide (k = cmd) then Some v else dict_get cmd d'
  end.

(** What the callables do when called, by role. *)
Record Callables (PS : Type) : Type := {
  detected_listener : callable → Message → string → PS → outcome (option string) * PS;
  processed_listener : callable → Message → bool → PS → outcome unit * PS;
  command_action : callable → Message → string → PS → outcome unit * PS;
  message_filter : callable → Message → string → PS → outcome bool * PS
}.
Arguments detected_listener {PS} _ _ _ _ _.
Arguments processed_listener {PS} _ _ _ _ _.
Arguments command_action {PS} _ _ _ _ _.
Arguments message_filter {PS} _ _ _ _ _.

(** How a dispatch call ends.  Python returns [None] on every path; the
    value tells the paths apart and carries the local [processed]. *)
Inductive dispatch : Type :=
| RejectedByIntake
| RejectedByListener
| Completed (processed : bool).

(** ** The dispatcher *)

Section Dispatch.
Context {PS : Type}.
Variable calls : Callables PS.
(** [self.get_args], a method of the base class [DeltaBot]. *)
Variable get_args : string → string → option string.

Definition call_detected (l : callable) (msg : Message) (text : string)
  : M PS (outcome (option string)) :=
  λ ps, let '(r, ps') := detected_listener calls l msg text ps in
        (r, ps', [CallDetected l msg text]).

Definition call_filter (f : callable) (msg : Message) (text : string)
  : M PS (outcome bool) :=
  λ ps, let '(r, ps') := message_filter calls f msg text ps in
        (r, ps', [CallFilter f msg text]).

Definition call_processed (l : callable) (msg : Message) (processed : bool)
  : M PS (outcome unit) :=
  λ ps, let '(r, ps') := processed_listener calls l msg processed ps in
        (r, ps', [CallProcessed l msg processed]).

(** [self.commands[cmd][-1](msg, args)]; a failing subscript raises
    inside the [try] like the call itself. *)
Definition call_command (d : list (string * callable)) (cmd : string)
    (msg : Message) (args : string) : M PS (outcome unit) :=
  match dict_get cmd d with
  | Some h =>
      λ ps, let '(r, ps') := command_action calls h msg args ps in
            (r, ps', [CallCommand cmd h msg args])
  | None => ret (Raised ("KeyError: " +:+ cmd))
  end.

(** The loop over [self._mdl] (lines 170-178) and over [self._cdl]
    (lines 218-226); [rejected] is the text of the debug record, the
    only difference between the two.  [None] stands for the [return]
    inside the loop. *)
Fixpoint detected_loop (rejected : string) (listeners : list callable)
    (msg : Message) (text : string) : M PS (option string) :=
  match listeners with
  | [] => ret (Some text)
  | listener :: rest =>
      r <- call_detected listener msg text ;;
      match r with
      | Returned (Some text') => detected_loop rejected rest msg text'
      | Returned None =>
          emit (LogDebug rejected) ;;
          emit (DeleteMessages msg) ;;
          ret None
      | Raised ex =>
          emit (LogException ex) ;;
          detected_loop rejected rest msg text
      end
  end.

(** The loop over [self.filters] (lines 180-187). *)
Fixpoint filter_loop (fs : list callable) (msg : Message) (text : string)
    (processed : bool) : M PS bool :=
  match fs with
  | [] => ret processed
  | f :: rest =>
      r <- call_filter f msg text ;;
      match r with
      | Returned true =>
          emit (LogDebug "Message processed") ;;
          filter_loop rest msg text true
      | Returned false => filter_loop rest msg text processed
      | Raised ex =>
          emit (LogException ex) ;;
          filter_loop rest msg text processed
      end
  end.

(** The [for ... else] over [self.commands] (lines 228-239). *)
Fixpoint command_loop (d : list (string * callable)) (cmds : list string)
    (msg : Message) (text : string) : M PS bool :=
  match cmds with
  | [] => ret false
  | cmd :: rest =>
      match get_args cmd text with
      | Some args =>
          r <- call_command d cmd msg args ;;
          match r with
          | Returned _ =>
              emit (LogDebug ("Command processed: " +:+ cmd)) ;;
              ret true
          | Raised ex =>
              emit (LogException ex) ;;
              command_loop d rest msg text
          end
      | None => command_loop d rest msg text
      end
  end.

(** The loop over [self._mpl] (lines 192-196) and over [self._cpl]
    (lines 244-248). *)
Fixpoint processed_loop (listeners : list callable) (msg : Message)
    (processed : bool) : M PS unit :=
  match listeners with
  | [] => ret tt
  | listener :: rest =>
      r <- call_processed listener msg processed ;;
      match r with
      | Returned _ => processed_loop rest msg processed
      | Raised ex =>
          emit (LogException ex) ;;
          processed_loop rest msg processed
      end
  end.

(** [on_message] from line 180 on. *)
Definition message_resolution (self : SimpleBot) (msg : Message)
    (text : string) : M PS (dispatch * Message) :=
  processed <- filter_loop (filters self) msg text false ;;
  (if processed then ret tt else emit (LogDebug "Message was not processed")) ;;
  processed_loop (elements (_mpl self)) msg processed ;;
  emit (MarkSeenMessages msg) ;;
  ret (Completed processed, msg).

(** [on_message] from line 170 on, with the listeners still to visit. *)
Definition message_stages (self : SimpleBot) (listeners : list callable)
    (msg : Message) (text : string) : M PS (dispatch * Message) :=
  r <- detected_loop "Message rejected" listeners msg text ;;
  match r with
  | None => ret (RejectedByListener, msg)
  | Some text => message_resolution self msg text
  end.

Definition on_message (self : SimpleBot) (msg : Message) (text : option string)
  : M PS (dispatch * Message) :=
  emit (LogDebug ("Received message from " +:+ sender_addr msg)) ;;
  match chat_version msg with
  | None =>
      emit (LogDebug "Classic email rejected") ;;
      emit (DeleteMessages msg) ;;
      ret (RejectedByIntake, msg)
  | Some _ =>
      let text := match text with None => msg_text msg | Some t => t end in
      message_stages self (elements (_mdl self)) msg text
  end.

(** [on_command] from line 228 on. *)
Definition command_resolution (self : SimpleBot) (msg : Message)
    (text : string) : M PS (dispatch * Message) :=
  processed <- command_loop (commands self) (dict_keys (commands self)) msg text ;;
  (if processed then ret tt else emit (LogDebug "Command was not processed")) ;;
  processed_loop (elements (_cpl self)) msg processed ;;
  emit (MarkSeenMessages msg) ;;
  ret (Completed processed, msg).

(** [on_command] from line 218 on, with the listeners still to visit. *)
Definition command_stages (self : SimpleBot) (listeners : list callable)
    (msg : Message) (text : string) : M PS (dispatch * Message) :=
  r <- detected_loop "Command rejected" listeners msg text ;;
  match r with
  | None => ret (RejectedByListener, msg)
  | Some text => command_resolution self msg text
  end.

Definition on_command (self : SimpleBot) (msg : Message) (text : option string)
  : M PS (dispatch * Message) :=
  emit (LogDebug ("Received command from " +:+ sender_addr msg)) ;;
  match chat_version msg with
  | None =>
      emit (LogDebug "Classic email rejected") ;;
      emit (DeleteMessages msg) ;;
      ret (RejectedByIntake, msg)
  | Some _ =>
      let text := match text with None => msg_text msg | Some t => t end in
      let real_cmd := get_args "/z" text in
      let msg := match real_cmd with
                 | None => set_user_agent "unknow" msg
                 | Some _ => set_user_agent "zhv" msg
                 end in
      let text := match real_cmd with
                  | None => text
                  | Some real => real
                  end in
      command_stages self (elements (_cdl self)) msg text
  end.

End Dispatch.

(** ** The plugin lifecycle *)

(** A loaded plugin: a subclass of [Plugin] with its two hooks.  The hooks
    are plugin code; they act on the bot they were given and on the
    plugin-owned store. *)
Record Plugin (PS : Type) : Type := {
  name : string;
  activate : SimpleBot → PS → outcome unit * (SimpleBot * PS);
  deactivate : SimpleBot → PS → outcome unit * (SimpleBot * PS)
}.
Arguments name {PS} _.
Arguments activate {PS} _ _ _.
Arguments deactivate {PS} _ _ _.

Section Lifecycle.
Context {PS : Type}.

Definition call_activate (plugin : Plugin PS) : M (SimpleBot * PS) (outcome unit) :=
  λ s, let '(r, s') := activate plugin s.1 s.2 in
       (r, s', [CallActivate (name plugin)]).

Definition call_deactivate (plugin : Plugin PS) : M (SimpleBot * PS) (outcome unit) :=
  λ s, let '(r, s') := deactivate plugin s.1 s.2 in
       (r, s', [CallDeactivate (name plugin)]).

(** Lines 260-262: no [try]; an exception leaves the loop and the method. *)
Fixpoint activate_plugins (plugins : list (Plugin PS))
  : M (SimpleBot * PS) (outcome unit) :=
  match plugins with
  | [] => ret (Returned tt)
  | plugin :: rest =>
      r <- call_activate plugin ;;
      match r with
      | Returned _ => activate_plugins rest
      | Raised ex => ret (Raised ex)
      end
  end.

(** Lines 264-269. *)
Fixpoint deactivate_plugins (plugins : list (Plugin PS))
  : M (SimpleBot * PS) unit :=
  match plugins with
  | [] => ret tt
  | plugin :: rest =>
      r <- call_deactivate plugin ;;
      match r with
      | Returned _ => deactivate_plugins rest
      | Raised ex =>
          emit (LogException ex) ;;
          deactivate_plugins rest
      end
  end.

(** Lines 64-69; [super_start] is [DeltaBot.start]. *)
Definition start (super_start : M (SimpleBot * PS) (outcome unit))
    (plugins : list (Plugin PS)) : M (SimpleBot * PS) (outcome unit) :=
  r <- activate_plugins plugins ;;
  match r with
  | Raised ex => ret (Raised ex)
  | Returned _ =>
      r' <- super_start ;;
      deactivate_plugins plugins ;;
      ret r'
  end.

End Lifecycle.

(** ** Command matching *)

Definition is_whitespace (c : Ascii.ascii) : bool :=
  bool_decide (Ascii.nat_of_ascii c ∈ [9; 10; 11; 12; 13; 32]).

Fixpoint lstrip (s : string) : string :=
  match s with
  | String c s' => if is_whitespace c then lstrip s' else s
  | EmptyString => EmptyString
  end.

Fixpoint strip_prefix (p s : string) : option string :=
  match p, s with
  | EmptyString, _ => Some s
  | String a p', String b s' => if decide (a = b) then strip_prefix p' s' else None
  | String _ _, EmptyString => None
  end.

(** Modelled from the spec: [DeltaBot.get_args], of [deltabot.py], which is
    not among the sources.  A command name matches a text it is a prefix
    of when whitespace or the end of the text follows; the result is the
    remaining argument text, after the separating whitespace. *)
Definition get_args_spec (cmd text : string) : option string :=
  match strip_prefix cmd text with
  | None => None
  | Some EmptyString => Some EmptyString
  | Some (String c rest) =>
      if is_whitespace c then Some (lstrip rest) else None
  end.

(** ** Reading a trace *)

Definition is_call (e : event) : bool :=
  match e with
  | CallDetected _ _ _ | CallFilter _ _ _ | CallCommand _ _ _ _
  | CallProcessed _ _ _ => true
  | _ => false
  end.

Definition is_mark_seen (e : event) : bool :=
  match e with MarkSeenMessages _ => true | _ => false end.

Definition is_delete (e : event) : bool :=
  match e with DeleteMessages _ => true | _ => false end.

Definition is_detected_call (e : event) : bool :=
  match e with CallDetected _ _ _ => true | _ => false end.

Definition is_processed_call (e : event) : bool :=
  match e with CallProcessed _ _ _ => true | _ => false end.

Definition is_filter_call (e : event) : bool :=
  match e with CallFilter _ _ _ => true | _ => false end.

Definition is_command_call (e : event) : bool :=
  match e with CallCommand _ _ _ _ => true | _ => false end.

Definition is_lifecycle_call (e : event) : bool :=
  match e with CallActivate _ | CallDeactivate _ => true | _ => false end.

(** The message an event carries, when it carries one. *)
Definition event_message (e : event) : option Message :=
  match e with
  | DeleteMessages m | MarkSeenMessages m | CallDetected _ m _
  | CallFilter _ m _ | CallCommand _ _ m _ | CallProcessed _ m _ => Some m
  | _ => None
  end.

(** What a loop over callbacks of one kind may put in the trace for
    [msg]: a call of that kind that was handed [msg], or a log record. *)
Definition loop_event (kind : event → bool) (msg : Message) (e : event) : Prop :=
  match e with
  | LogDebug _ | LogException _ => True
  | _ => kind e = true ∧ event_message e = Some msg
  end.

(** The outcomes of the filters, each run in the store its predecessors
    left. *)
Fixpoint filter_outcomes {PS} (calls : Callables PS) (fs : list callable)
    (msg : Message) (text : string) (ps : PS) : list (outcome bool) :=
  match fs with
  | [] => []
  | f :: rest =>
      let '(r, ps') := message_filter calls f msg text ps in
      r :: filter_outcomes calls rest msg text ps'
  end.

(** A filter acted when it returned a true value. *)
Definition acted (r : outcome bool) : bool :=
  match r with
  | Returned b => b
  | Raised _ => false
  end.

(** The text a dispatch starts from: [if text is None: text = msg.text]. *)
Definition start_text (msg : Message) (text : option string) : string :=
  match text with
  | None => msg_text msg
  | Some t => t
  end.

(** The origin tag [on_command] gives a message whose text is [text], and
    the text it goes on with (lines 211-216). *)
Definition origin_tag (get_args : string → string → option string)
    (text : string) : string :=
  match get_args "/z" text with
  | Some _ => "zhv"
  | None => "unknow"
  end.

Definition command_text (get_args : string → string → option string)
    (text : string) : string :=
  match get_args "/z" text with
  | Some real => real
  | None => text
  end.

(** The trace ends with the one [mark_seen_messages] of [msg], and has no
    [delete_messages]. *)
Definition marked_seen_once_at_end (tr : list event) (msg : Message) : Prop :=
  ∃ body, tr = body ++ [MarkSeenMessages msg]
          ∧ List.filter is_mark_seen body = []
          ∧ List.filter is_delete body = [].

(** The trace ends with the one [delete_messages] of [msg], and has no
    [mark_seen_messages]. *)
Definition deleted_and_never_seen (tr : list event) (msg : Message) : Prop :=
  ∃ body, tr = body ++ [DeleteMessages msg]
          ∧ List.filter is_mark_seen body = []
          ∧ List.filter is_delete body = [].

(** ** Loading plugins *)

(** An entry point of the group [simplebot.plugins]: [ep.load()] returns
    the plugin class or raises. *)
Definition EntryPoint (PS : Type) : Type := PS → outcome (Plugin PS) * PS.

(** Lines 252-258, with the list built so far in [plugins]. *)
Fixpoint load_loop {PS} (entry_points : list (EntryPoint PS))
    (plugins : list (Plugin PS)) : M PS (list (Plugin PS)) :=
  match entry_points with
  | [] => ret plugins
  | ep :: rest =>
      r <- (λ ps, let '(r, ps') := ep ps in (r, ps', [])) ;;
      match r with
      | Returned plugin => load_loop rest (plugins ++ [plugin])
      | Raised ex =>
          emit (LogException ex) ;;
          load_loop rest plugins
      end
  end.

Definition load_plugins {PS} (entry_points : list (EntryPoint PS))
  : M PS (list (Plugin PS)) :=
  load_loop entry_points [].

(** What the entry points do, each run in the store its predecessors
    left. *)
Fixpoint load_outcomes {PS} (entry_points : list (EntryPoint PS)) (ps : PS)
  : list (outcome (Plugin PS)) :=
  match entry_points with
  | [] => []
  | ep :: rest => let '(r, ps') := ep ps in r :: load_outcomes rest ps'
  end.

Definition returned {A} (r : outcome A) : option A :=
  match r with Returned a => Some a | Raised _ => None end.

Definition raised {A} (r : outcome A) : option exn :=
  match r with Returned _ => None | Raised ex => Some ex end.

(** ** Blob files *)

(** What a path of the file system holds. *)
Inductive node : Type :=
| Directory
| TextFile (content : string)
| ZipFile (members : list (string * string)).

(** The file system and the files sent to the chat, each with the
    [mime_type] it was sent with. *)
Record Disk : Type := {
  files : gmap string node;
  sent : list (string * option string)
}.

(** [os.path.exists(path)]. *)
Definition path_exists (fs : gmap string node) (path : string) : bool :=
  bool_decide (is_Some (fs !! path)).

Definition starts_with_sep (s : string) : bool :=
  match s with
  | String c _ => bool_decide (String c "" = "/")
  | EmptyString => false
  end.

Fixpoint ends_with_sep (s : string) : bool :=
  match s with
  | EmptyString => false
  | String c EmptyString => bool_decide (String c "" = "/")
  | String _ s' => ends_with_sep s'
  end.

(** [os.path.join(a, b)] of [posixpath], for two components. *)
Definition path_join (a b : string) : string :=
  if starts_with_sep b then b
  else if bool_decide (a = "") || ends_with_sep a then a +:+ b
  else a +:+ "/" +:+ b.

(** [s.split('.', 1)]: the text before the first dot and, when there is a
    dot, the text after it. *)
Fixpoint split_dot (s : string) : string * option string :=
  match s with
  | EmptyString => (EmptyString, None)
  | String c s' =>
      if bool_decide (String c "" = ".") then (EmptyString, Some s')
      else let '(a, r) := split_dot s' in (String c a, r)
  end.

(** Lines 88-92: the name without its extension, and the extension. *)
Definition stem_ext (basename : string) : string * string :=
  match split_dot basename with
  | (stem, Some e) => (stem, "." +:+ e)
  | (stem, None) => (stem, "")
  end.

(** Lines 96-97: the [i]-th numbered path. *)
Definition numbered (blobdir stem ext : string) (i : nat) : string :=
  path_join blobdir (stem +:+ "-" +:+ pretty i +:+ ext).

(** Lines 95-98: the [while] loop, run for at most [fuel] rounds. *)
Fixpoint blobpath_loop (fuel : nat) (fs : gmap string node)
    (candidate : nat → string) (path : string) (i : nat) : option string :=
  if path_exists fs path then
    match fuel with
    | 0 => None
    | S fuel' => blobpath_loop fuel' fs candidate (candidate i) (S i)
    end
  else Some path.

(** Lines 85-100; [blobdir] is what [self.get_blobdir()] returns.  The
    loop gets one round per path of the file system, and one more. *)
Definition get_blobpath (fs : gmap string node) (blobdir basename : string)
  : option string :=
  let path := path_join blobdir basename in
  let '(stem, ext) := stem_ext basename in
  blobpath_loop (S (size fs)) fs (numbered blobdir stem ext) path 1.

(** Lines 71-83.  The compressed file is a zip archive with the one member
    [index.html]. *)
Definition send_html (blobdir : string) (d : Disk) (html basename : string)
    (user_agent : option string) : option (string * Disk) :=
  if bool_decide (user_agent = Some "zhv") then
    file_path ← get_blobpath (files d) blobdir (basename +:+ ".htmlzip");
    Some (file_path,
          {| files := <[file_path := ZipFile [("index.html", html)]]> (files d);
             sent := sent d ++ [(file_path, None)] |})
  else
    file_path ← get_blobpath (files d) blobdir (basename +:+ ".html");
    Some (file_path,
          {| files := <[file_path := TextFile html]> (files d);
             sent := sent d ++ [(file_path, Some "text/html")] |}).

(** The callable a call event names. *)
Definition detected_callee (e : event) : option callable :=
  match e with CallDetected l _ _ => Some l | _ => None end.

Definition processed_callee (e : event) : option callable :=
  match e with CallProcessed l _ _ => Some l | _ => None end.

(** [s] ends with [suffix]. *)
Definition ends_with (suffix s : string) : Prop := ∃ pre, s = pre +:+ suffix.

(** ** Fixtures *)

(** A small plugin set over a store that counts the calls made so far.
    Listener 1 appends an exclamation mark, listener 2 vetoes, listener 3
    raises; filter 1 acts, filter 2 does not, filter 3 raises; action 1
    returns, action 2 raises. *)
Definition demo_calls : Callables nat := {|
  detected_listener l _ text n :=
    match l with
    | 1 => (Returned (Some (text +:+ "!")), S n)
    | 2 => (Returned None, S n)
    | 3 => (Raised "listener failed", S n)
    | _ => (Returned (Some text), S n)
    end;
  processed_listener _ _ _ n := (Returned tt, S n);
  command_action h _ _ n :=
    match h with
    | 2 => (Raised "action failed", S n)
    | _ => (Returned tt, S n)
    end;
  message_filter f _ _ n :=
    match f with
    | 1 => (Returned true, S n)
    | 3 => (Raised "filter failed", S n)
    | _ => (Returned false, S n)
    end
|}.

Definition empty_bot : SimpleBot := {|
  _mdl := ∅; _mpl := ∅; _cdl := ∅; _cpl := ∅; commands := []; filters := []
|}.

Definition chat_msg (text : string) : Message := {|
  msg_id := 1;
  chat_version := Some "1.0";
  sender_addr := "alice@example.org";
  msg_text := text;
  user_agent := None
|}.

Definition classic_email : Message := {|
  msg_id := 2;
  chat_version := None;
  sender_addr := "bob@example.org";
  msg_text := "hello";
  user_agent := None
|}.

(** A bot whose only handler, for [/ping], is action [h]. *)
Definition ping_bot (h : callable) : SimpleBot := {|
  _mdl := ∅; _mpl := ∅; _cdl := ∅; _cpl := ∅;
  commands := [("/ping", h)]; filters := []
|}.

(** A bot with the three demo filters and one listener of each kind. *)
Definition demo_bot : SimpleBot := {|
  _mdl := {[1]}; _mpl := {[5]}; _cdl := {[1]}; _cpl := {[5]};
  commands := [("/ping", 1)]; filters := [2; 3; 1; 2]
|}.

(** A bot whose detected listeners are visited in the order 4, 2, 1:
    listener 2 vetoes what listener 4 passed on. *)
Definition veto_bot : SimpleBot := {|
  _mdl := {[1; 2; 4]}; _mpl := {[5]}; _cdl := {[1; 2; 4]}; _cpl := {[5]};
  commands := [("/ping", 1)]; filters := [1]
|}.

(** A bot whose detected listeners are visited in the order 4, 3, 1:
    listener 3 raises between the two others. *)
Definition faulty_bot : SimpleBot := {|
  _mdl := {[1; 3; 4]}; _mpl := {[5]}; _cdl := {[1; 3; 4]}; _cpl := {[5]};
  commands := [("/ping", 1)]; filters := [1]
|}.

Definition demo_plugin (n : string) (fails : bool) : Plugin nat := {|
  name := n;
  activate bot k := (Returned tt, (add_on_msg_detected_listener (S k) bot, S k));
  deactivate bot k :=
    if fails then (Raised "deactivation failed", (bot, k))
    else (Returned tt, (remove_on_msg_detected_listener k bot, pred k))
|}.

(** Three plugins in load order; the hook of the second fails on
    deactivation. *)
Definition demo_plugins : list (Plugin nat) :=
  [demo_plugin "first" false; demo_plugin "second" true; demo_plugin "third" false].

(** A blob directory where [page.html] and [page-1.html] are taken. *)
Definition demo_fs : gmap string node :=
  {[ "/blobs" := Directory;
     "/blobs/page.html" := TextFile "old";
     "/blobs/page-1.html" := TextFile "older" ]}.

Definition demo_disk : Disk := {| files := demo_fs; sent := [] |}.

(** The demo disk after one plain page named [page] was sent, and after
    a second one. *)
Definition demo_disk_1 : Disk := {|
  files := <["/blobs/page-2.html" := TextFile "<p>hi</p>"]> demo_fs;
  sent := [("/blobs/page-2.html", Some "text/html")]
|}.

Definition demo_disk_2 : Disk := {|
  files := <["/blobs/page-3.html" := TextFile "<p>hi</p>"]> (files demo_disk_1);
  sent := [("/blobs/page-2.html", Some "text/html");
           ("/blobs/page-3.html", Some "text/html")]
|}.

(** Three entry points; the second fails to load. *)
Definition demo_entry_points : list (EntryPoint nat) :=
  [ (λ n, (Returned (demo_plugin "first" false), S n));
    (λ n, (Raised "import failed", n));
    (λ n, (Returned (demo_plugin "third" false), S n)) ].

(** [DeltaBot.start] standing in: it serves, then fails. *)
Definition failing_super_start : M (SimpleBot * nat) (outcome unit) :=
  λ s, (Raised "connection lost", s, [LogDebug "serving"]).

(** * Properties *)

(** ** The loops *)

Section Loops.
Context {PS : Type}.
Variable calls : Callables PS.
Variable get_args : string → string → option string.

Lemma detected_loop_app rejected pre post msg text ps :
  detected_loop calls rejected (pre ++ post) msg text ps =
  match detected_loop calls rejected pre msg text ps with
  | (Some t, ps1, tr1) =>
      let '(r, ps2, tr2) := detected_loop calls rejected post msg t ps1 in
      (r, ps2, tr1 ++ tr2)
  | (None, ps1, tr1) => (None, ps1, tr1)
  end.
Proof.
  revert text ps. induction pre as [|l pre IH]; intros text ps; simpl.
  - unfold ret. by destruct (detected_loop _ _ post _ _ _) as [[??]?].
  - unfold bind, call_detected, emit, ret.
    destruct (detected_listener calls l msg text ps) as [[[t|]|ex] ps1]; simpl.
    + rewrite IH.
      destruct (detected_loop _ _ pre _ _ _) as [[[t1|] ps2] tr1]; [|done].
      by destruct (detected_loop _ _ post _ _ _) as [[??]?].
    + done.
    + rewrite IH.
      destruct (detected_loop _ _ pre _ _ _) as [[[t1|] ps2] tr1]; [|done].
      by destruct (detected_loop _ _ post _ _ _) as [[??]?].
Qed.

Lemma detected_loop_shape rejected listeners msg text ps :
  match detected_loop calls rejected listeners msg text ps with
  | (Some _, _, tr) => Forall (loop_event is_detected_call msg) tr
  | (None, _, tr) =>
      ∃ body, tr = body ++ [LogDebug rejected; DeleteMessages msg]
              ∧ Forall (loop_event is_detected_call msg) body
  end.
Proof.
  revert text ps. induction listeners as [|l rest IH]; intros text ps; simpl.
  - constructor.
  - unfold bind, call_detected, emit, ret.
    destruct (detected_listener calls l msg text ps) as [[[t|]|ex] ps1]; simpl.
    + specialize (IH t ps1).
      destruct (detected_loop _ _ rest _ _ _) as [[[t1|] ps2] tr1].
      * by constructor.
      * destruct IH as (body & -> & Hbody).
        exists (CallDetected l msg text :: body). split; [done|]. by constructor.
    + exists [CallDetected l msg text]. split; [done|]. by repeat constructor.
    + specialize (IH text ps1).
      destruct (detected_loop _ _ rest _ _ _) as [[[t1|] ps2] tr1].
      * by repeat constructor.
      * destruct IH as (body & -> & Hbody).
        exists (CallDetected l msg text :: LogException ex :: body).
        split; [done|]. by repeat constructor.
Qed.

Lemma filter_loop_events fs msg text processed ps :
  Forall (loop_event is_filter_call msg) (trace (filter_loop calls fs msg text processed ps)).
Proof.
  revert processed ps. induction fs as [|f rest IH]; intros processed ps; simpl.
  - constructor.
  - unfold bind, call_filter, emit, ret, trace.
    destruct (message_filter calls f msg text ps) as [[[|]|ex] ps1]; simpl.
    + specialize (IH true ps1). unfold trace in IH.
      destruct (filter_loop _ rest _ _ _ _) as [[b ps2] tr]. by repeat constructor.
    + specialize (IH processed ps1). unfold trace in IH.
      destruct (filter_loop _ rest _ _ _ _) as [[b ps2] tr]. by repeat constructor.
    + specialize (IH processed ps1). unfold trace in IH.
      destruct (filter_loop _ rest _ _ _ _) as [[b ps2] tr]. by repeat constructor.
Qed.

Lemma command_loop_events d cmds msg text ps :
  Forall (loop_event is_command_call msg) (trace (command_loop calls get_args d cmds msg text ps)).
Proof.
  revert ps. induction cmds as [|cmd rest IH]; intros ps; simpl.
  - constructor.
  - destruct (get_args cmd text) as [args|]; [|apply IH].
    unfold bind, call_command, emit, ret, trace.
    destruct (dict_get cmd d) as [h|]; simpl.
    + destruct (command_action calls h msg args ps) as [[[]|ex] ps1]; simpl.
      * by repeat constructor.
      * specialize (IH ps1). unfold trace in IH.
        destruct (command_loop _ _ _ rest _ _ _) as [[b ps2] tr].
        by repeat constructor.
    + specialize (IH ps). unfold trace in IH.
      destruct (command_loop _ _ _ rest _ _ _) as [[b ps2] tr].
      by repeat constructor.
Qed.

Lemma processed_loop_events listeners msg processed ps :
  Forall (loop_event is_processed_call msg) (trace (processed_loop calls listeners msg processed ps)).
Proof.
  revert ps. induction listeners as [|l rest IH]; intros ps; simpl.
  - constructor.
  - unfold bind, call_processed, emit, ret, trace.
    destruct (processed_listener calls l msg processed ps) as [[[]|ex] ps1];
      simpl; specialize (IH ps1); unfold trace in IH;
      destruct (processed_loop _ rest _ _ _) as [[b ps2] tr];
      by repeat constructor.
Qed.

End Loops.

Lemma loop_events_filter kind (q : event → bool) msg tr :
  Forall (loop_event kind msg) tr →
  q (LogDebug "") = false → q (LogException "") = false →
  (∀ e, kind e = true → q e = false) →
  (∀ s, q (LogDebug s) = q (LogDebug "")) →
  (∀ ex, q (LogException ex) = q (LogException "")) →
  List.filter q tr = [].
Proof.
  intros Htr Hd Hx Hk Hd' Hx'.
  induction Htr as [|e tr He _ IH]; [done|].
  simpl.
  destruct e; simpl in He;
    [by rewrite Hd', Hd | by rewrite Hx', Hx | ..];
    destruct He as [He _]; by rewrite (Hk _ He).
Qed.

Lemma loop_events_no_mark_seen kind msg tr :
  Forall (loop_event kind msg) tr →
  (∀ e, kind e = true → is_call e = true) →
  List.filter is_mark_seen tr = [].
Proof.
  intros Htr Hk. apply (loop_events_filter kind _ msg); try done.
  intros e He. specialize (Hk e He). by destruct e.
Qed.

Lemma loop_events_no_delete kind msg tr :
  Forall (loop_event kind msg) tr →
  (∀ e, kind e = true → is_call e = true) →
  List.filter is_delete tr = [].
Proof.
  intros Htr Hk. apply (loop_events_filter kind _ msg); try done.
  intros e He. specialize (Hk e He). by destruct e.
Qed.

Lemma loop_events_message kind msg tr e m :
  Forall (loop_event kind msg) tr → e ∈ tr → event_message e = Some m → m = msg.
Proof.
  intros Htr He Hm. rewrite Forall_forall in Htr. specialize (Htr e He).
  destruct e; simpl in *; try done; destruct Htr; congruence.
Qed.

(** ** The two pipelines past the detected listeners *)

Lemma on_message_accepted {PS} (calls : Callables PS) self msg text ps v t ps1 tr1 :
  chat_version msg = Some v →
  detected_loop calls "Message rejected" (elements (_mdl self)) msg
    (start_text msg text) ps = (Some t, ps1, tr1) →
  on_message calls self msg text ps =
    let '(p, ps2, tr2) := filter_loop calls (filters self) msg t false ps1 in
    let '(_, ps3, tr3) := processed_loop calls (elements (_mpl self)) msg p ps2 in
    ((Completed p, msg), ps3,
     LogDebug ("Received message from " +:+ sender_addr msg)
       :: tr1 ++ tr2
       ++ (if p then [] else [LogDebug "Message was not processed"])
       ++ tr3 ++ [MarkSeenMessages msg]).
Proof.
  intros Hv Hd.
  unfold on_message, message_stages, message_resolution, bind, emit, ret.
  rewrite Hv. fold (start_text msg text). rewrite Hd.
  destruct (filter_loop calls _ msg t false ps1) as [[p ps2] tr2].
  destruct p; simpl;
    destruct (processed_loop calls _ msg _ ps2) as [[[] ps3] tr3]; simpl;
    by rewrite ?app_nil_r.
Qed.

Lemma on_message_rejected {PS} (calls : Callables PS) self msg text ps v ps1 tr1 :
  chat_version msg = Some v →
  detected_loop calls "Message rejected" (elements (_mdl self)) msg
    (start_text msg text) ps = (None, ps1, tr1) →
  on_message calls self msg text ps =
    ((RejectedByListener, msg), ps1,
     LogDebug ("Received message from " +:+ sender_addr msg) :: tr1).
Proof.
  intros Hv Hd.
  unfold on_message, message_stages, bind, emit, ret.
  rewrite Hv. fold (start_text msg text). rewrite Hd. simpl.
  by rewrite app_nil_r.
Qed.

Lemma on_message_stages {PS} (calls : Callables PS) self msg text ps v :
  chat_version msg = Some v →
  on_message calls self msg text ps =
    let '(r, ps1, tr1) :=
      message_stages calls self (elements (_mdl self)) msg (start_text msg text) ps in
    (r, ps1, LogDebug ("Received message from " +:+ sender_addr msg) :: tr1).
Proof.
  intros Hv. unfold on_message, bind, emit, ret. rewrite Hv.
  fold (start_text msg text).
  by destruct (message_stages _ _ _ _ _ _) as [[r ps1] tr1].
Qed.

Lemma on_command_tagged {PS} (calls : Callables PS) get_args self msg text ps v :
  chat_version msg = Some v →
  on_command calls get_args self msg text ps =
    let '(r, ps1, tr1) :=
      command_stages calls get_args self (elements (_cdl self))
        (set_user_agent (origin_tag get_args (start_text msg text)) msg)
        (command_text get_args (start_text msg text)) ps in
    (r, ps1, LogDebug ("Received command from " +:+ sender_addr msg) :: tr1).
Proof.
  intros Hv. unfold on_command, bind, emit, ret, origin_tag, command_text.
  rewrite Hv. fold (start_text msg text).
  by destruct (get_args "/z" (start_text msg text)) as [real|];
    destruct (command_stages _ _ _ _ _ _ _) as [[r ps1] tr1].
Qed.

Lemma command_stages_accepted {PS} (calls : Callables PS) get_args self
    listeners msg text ps t ps1 tr1 :
  detected_loop calls "Command rejected" listeners msg text ps = (Some t, ps1, tr1) →
  command_stages calls get_args self listeners msg text ps =
    let '(p, ps2, tr2) :=
      command_loop calls get_args (commands self) (dict_keys (commands self))
        msg t ps1 in
    let '(_, ps3, tr3) := processed_loop calls (elements (_cpl self)) msg p ps2 in
    ((Completed p, msg), ps3,
     tr1 ++ tr2
       ++ (if p then [] else [LogDebug "Command was not processed"])
       ++ tr3 ++ [MarkSeenMessages msg]).
Proof.
  intros Hd.
  unfold command_stages, command_resolution, bind, emit, ret. rewrite Hd.
  destruct (command_loop calls _ _ _ msg t ps1) as [[p ps2] tr2].
  destruct p; simpl;
    destruct (processed_loop calls _ msg _ ps2) as [[[] ps3] tr3]; simpl;
    by rewrite ?app_nil_r.
Qed.

Lemma command_stages_rejected {PS} (calls : Callables PS) get_args self
    listeners msg text ps ps1 tr1 :
  detected_loop calls "Command rejected" listeners msg text ps = (None, ps1, tr1) →
  command_stages calls get_args self listeners msg text ps =
    ((RejectedByListener, msg), ps1, tr1).
Proof.
  intros Hd. unfold command_stages, bind, ret. rewrite Hd. simpl.
  by rewrite app_nil_r.
Qed.

Lemma loop_event_is_call kind msg e :
  (∀ e, kind e = true → is_call e = true) →
  loop_event kind msg e → loop_event is_call msg e.
Proof.
  intros Hk. destruct e; simpl; try done; intros [He ?]; split; try done;
    apply (Hk _ He).
Qed.

Lemma loop_events_is_call kind msg tr :
  (∀ e, kind e = true → is_call e = true) →
  Forall (loop_event kind msg) tr → Forall (loop_event is_call msg) tr.
Proof.
  intros Hk Htr. eapply Forall_impl; [exact Htr|].
  intros e. by apply loop_event_is_call.
Qed.

(** Past the intake guard a dispatch is a run of callbacks and log
    records, all about the same message, closed by the one account call. *)
Lemma message_stages_shape {PS} (calls : Callables PS) self listeners msg text ps :
  match detected_loop calls "Message rejected" listeners msg text ps with
  | (Some _, _, _) =>
      ∃ p body,
        message_stages calls self listeners msg text ps
          = ((Completed p, msg), final (message_stages calls self listeners msg text ps),
             body ++ [MarkSeenMessages msg])
        ∧ Forall (loop_event is_call msg) body
  | (None, _, _) =>
      ∃ body,
        message_stages calls self listeners msg text ps
          = ((RejectedByListener, msg),
             final (message_stages calls self listeners msg text ps),
             body ++ [DeleteMessages msg])
        ∧ Forall (loop_event is_call msg) body
  end.
Proof.
  pose proof (detected_loop_shape calls "Message rejected" listeners msg text ps) as Hs.
  unfold message_stages, message_resolution, bind, emit, ret, final.
  destruct (detected_loop calls _ listeners msg text ps) as [[[t|] ps1] tr1].
  - pose proof (filter_loop_events calls (filters self) msg t false ps1) as Hf.
    unfold trace in Hf.
    destruct (filter_loop calls _ msg t false ps1) as [[p ps2] tr2].
    pose proof (processed_loop_events calls (elements (_mpl self)) msg p ps2) as Hp.
    unfold trace in Hp.
    exists p. destruct p; simpl;
      destruct (processed_loop calls _ msg _ ps2) as [[[] ps3] tr3]; simpl.
    + exists (tr1 ++ tr2 ++ tr3). split.
      * by rewrite ?app_nil_r, <- ?app_assoc.
      * rewrite !Forall_app. split_and!;
          eapply loop_events_is_call; try eassumption; by intros [].
    + exists (tr1 ++ tr2 ++ [LogDebug "Message was not processed"] ++ tr3). split.
      * by rewrite ?app_nil_r, <- ?app_assoc.
      * rewrite !Forall_app. split_and!; [| |by repeat constructor|];
          eapply loop_events_is_call; try eassumption; by intros [].
  - destruct Hs as (body & -> & Hbody).
    exists (body ++ [LogDebug "Message rejected"]). split.
    + by rewrite ?app_nil_r, <- ?app_assoc.
    + rewrite Forall_app. split; [|by repeat constructor].
      eapply loop_events_is_call; try eassumption; by intros [].
Qed.

Lemma command_stages_shape {PS} (calls : Callables PS) get_args self
    listeners msg text ps :
  match detected_loop calls "Command rejected" listeners msg text ps with
  | (Some _, _, _) =>
      ∃ p body,
        command_stages calls get_args self listeners msg text ps
          = ((Completed p, msg),
             final (command_stages calls get_args self listeners msg text ps),
             body ++ [MarkSeenMessages msg])
        ∧ Forall (loop_event is_call msg) body
  | (None, _, _) =>
      ∃ body,
        command_stages calls get_args self listeners msg text ps
          = ((RejectedByListener, msg),
             final (command_stages calls get_args self listeners msg text ps),
             body ++ [DeleteMessages msg])
        ∧ Forall (loop_event is_call msg) body
  end.
Proof.
  pose proof (detected_loop_shape calls "Command rejected" listeners msg text ps) as Hs.
  unfold command_stages, command_resolution, bind, emit, ret, final.
  destruct (detected_loop calls _ listeners msg text ps) as [[[t|] ps1] tr1].
  - pose proof (command_loop_events calls get_args (commands self)
                  (dict_keys (commands self)) msg t ps1) as Hf.
    unfold trace in Hf.
    destruct (command_loop calls _ _ _ msg t ps1) as [[p ps2] tr2].
    pose proof (processed_loop_events calls (elements (_cpl self)) msg p ps2) as Hp.
    unfold trace in Hp.
    exists p. destruct p; simpl;
      destruct (processed_loop calls _ msg _ ps2) as [[[] ps3] tr3]; simpl.
    + exists (tr1 ++ tr2 ++ tr3). split.
      * by rewrite ?app_nil_r, <- ?app_assoc.
      * rewrite !Forall_app. split_and!;
          eapply loop_events_is_call; try eassumption; by intros [].
    + exists (tr1 ++ tr2 ++ [LogDebug "Command was not processed"] ++ tr3). split.
      * by rewrite ?app_nil_r, <- ?app_assoc.
      * rewrite !Forall_app. split_and!; [| |by repeat constructor|];
          eapply loop_events_is_call; try eassumption; by intros [].
  - destruct Hs as (body & -> & Hbody).
    exists (body ++ [LogDebug "Command rejected"]). split.
    + by rewrite ?app_nil_r, <- ?app_assoc.
    + rewrite Forall_app. split; [|by repeat constructor].
      eapply loop_events_is_call; try eassumption; by intros [].
Qed.

Lemma loop_events_then_seen msg body :
  Forall (loop_event is_call msg) body →
  marked_seen_once_at_end (body ++ [MarkSeenMessages msg]) msg.
Proof.
  intros Hb. exists body. split_and!; [done| |].
  - by apply (loop_events_no_mark_seen is_call msg).
  - by apply (loop_events_no_delete is_call msg).
Qed.

Lemma loop_events_then_deleted msg body :
  Forall (loop_event is_call msg) body →
  deleted_and_never_seen (body ++ [DeleteMessages msg]) msg.
Proof.
  intros Hb. exists body. split_and!; [done| |].
  - by apply (loop_events_no_mark_seen is_call msg).
  - by apply (loop_events_no_delete is_call msg).
Qed.

Lemma marked_seen_after_debug s tr msg :
  marked_seen_once_at_end tr msg → marked_seen_once_at_end (LogDebug s :: tr) msg.
Proof. intros (body & -> & ? & ?). by exists (LogDebug s :: body). Qed.

Lemma deleted_after_debug s tr msg :
  deleted_and_never_seen tr msg → deleted_and_never_seen (LogDebug s :: tr) msg.
Proof. intros (body & -> & ? & ?). by exists (LogDebug s :: body). Qed.

(** The matching rule on the cases the spec lists: a name does not match
    inside a longer token. *)
Example get_args_spec_cases :
  get_args_spec "/a" "/ab x" = None
  ∧ get_args_spec "/ab" "/ab x" = Some "x"
  ∧ get_args_spec "/ping" "/ping" = Some ""
  ∧ get_args_spec "/z" "/z /ping" = Some "/ping"
  ∧ get_args_spec "/z" "/ping" = None.
Proof. by repeat split. Qed.

(** ** Stage 1: the intake guard *)

(** C4.  An item without chat-protocol metadata (its [chat-version] header
    is [None]) is deleted and the dispatch returns at once, for a message
    and for a command: besides the two debug records the only thing done
    is [delete_messages]; no detected listener, filter, handler or
    processed listener is called, the item is not marked seen, and the
    plugin store and the item are as before. *)
Theorem intake_guard_discards {PS} (calls : Callables PS)
    (get_args : string → string → option string)
    (self : SimpleBot) (msg : Message) (text : option string) (ps : PS) :
  chat_version msg = None →
  on_message calls self msg text ps =
    ((RejectedByIntake, msg), ps,
     [LogDebug ("Received message from " +:+ sender_addr msg);
      LogDebug "Classic email rejected"; DeleteMessages msg])
  ∧ on_command calls get_args self msg text ps =
    ((RejectedByIntake, msg), ps,
     [LogDebug ("Received command from " +:+ sender_addr msg);
      LogDebug "Classic email rejected"; DeleteMessages msg])
  ∧ List.filter is_call (trace (on_message calls self msg text ps)) = []
  ∧ List.filter is_call (trace (on_command calls get_args self msg text ps)) = []
  ∧ List.filter is_mark_seen (trace (on_message calls self msg text ps)) = []
  ∧ List.filter is_mark_seen (trace (on_command calls get_args self msg text ps)) = [].
Proof.
  intros Hv.
  assert (Hm : on_message calls self msg text ps =
    ((RejectedByIntake, msg), ps,
     [LogDebug ("Received message from " +:+ sender_addr msg);
      LogDebug "Classic email rejected"; DeleteMessages msg])).
  { unfold on_message, bind, emit, ret. by rewrite Hv. }
  assert (Hc : on_command calls get_args self msg text ps =
    ((RejectedByIntake, msg), ps,
     [LogDebug ("Received command from " +:+ sender_addr msg);
      LogDebug "Classic email rejected"; DeleteMessages msg])).
  { unfold on_command, bind, emit, ret. by rewrite Hv. }
  rewrite Hm, Hc. by repeat split.
Qed.

Lemma intake_guard_discards_witness :
  chat_version classic_email = None
  ∧ on_message demo_calls demo_bot classic_email None 0 =
      ((RejectedByIntake, classic_email), 0,
       [LogDebug "Received message from bob@example.org";
        LogDebug "Classic email rejected"; DeleteMessages classic_email]).
Proof.
  split; [reflexivity|].
  apply (intake_guard_discards demo_calls get_args_spec demo_bot classic_email None 0).
  reflexivity.
Defined.

(** ** Stage 2: the detected listeners *)

(** C2.  In a message dispatch past the intake guard, let [l] be the first
    detected listener, in the iteration order of [_mdl], that returns
    [None] for the text it is handed.  The dispatch ends at [l]: after the
    call of [l] come the debug record and [delete_messages], and nothing
    else; the listeners after [l], the filters and the processed listeners
    are not called and the item is not marked seen. *)
Theorem detected_rejection_stops {PS} (calls : Callables PS)
    (self : SimpleBot) (msg : Message) (text : option string) (ps : PS)
    (v : string) (pre post : list callable) (l : callable)
    (t : string) (ps1 ps2 : PS) (tr1 : list event) :
  chat_version msg = Some v →
  elements (_mdl self) = pre ++ l :: post →
  detected_loop calls "Message rejected" pre msg (start_text msg text) ps
    = (Some t, ps1, tr1) →
  detected_listener calls l msg t ps1 = (Returned None, ps2) →
  on_message calls self msg text ps =
    ((RejectedByListener, msg), ps2,
     LogDebug ("Received message from " +:+ sender_addr msg)
       :: tr1 ++ [CallDetected l msg t; LogDebug "Message rejected";
                  DeleteMessages msg])
  ∧ Forall (loop_event is_detected_call msg) tr1.
Proof.
  intros Hv Hel Hpre Hl.
  split.
  - unfold on_message, message_stages, bind, emit, ret. rewrite Hv, Hel.
    fold (start_text msg text).
    rewrite detected_loop_app, Hpre. simpl.
    unfold bind, call_detected, emit, ret. rewrite Hl. simpl.
    by rewrite app_nil_r.
  - pose proof (detected_loop_shape calls "Message rejected" pre msg
                  (start_text msg text) ps) as Hs.
    by rewrite Hpre in Hs.
Qed.

Lemma detected_rejection_stops_witness :
  on_message demo_calls veto_bot (chat_msg "hello") None 0 =
    ((RejectedByListener, chat_msg "hello"), 2,
     [LogDebug "Received message from alice@example.org";
      CallDetected 4 (chat_msg "hello") "hello";
      CallDetected 2 (chat_msg "hello") "hello";
      LogDebug "Message rejected";
      DeleteMessages (chat_msg "hello")]).
Proof.
  apply (detected_rejection_stops demo_calls veto_bot (chat_msg "hello") None 0
           "1.0" [4] [1] 2 "hello" 1 2
           [CallDetected 4 (chat_msg "hello") "hello"]);
    reflexivity.
Defined.

(** C5.  In a message dispatch past the intake guard, let [l] be a
    detected listener that raises [ex] when its turn comes, the listeners
    before it having passed on the text [t].  The exception is logged and
    the dispatch goes on as if it had started at the listeners after [l]
    with the same text [t]: those listeners, the filters, the processed
    listeners and [mark_seen_messages] run as [message_stages] runs them.
    When none of the listeners after [l] returns [None], the dispatch
    completes and marks the item seen. *)
Theorem detected_fault_isolated {PS} (calls : Callables PS)
    (self : SimpleBot) (msg : Message) (text : option string) (ps : PS)
    (v : string) (pre post : list callable) (l : callable)
    (t : string) (ps1 ps2 : PS) (tr1 : list event) (ex : exn) :
  chat_version msg = Some v →
  elements (_mdl self) = pre ++ l :: post →
  detected_loop calls "Message rejected" pre msg (start_text msg text) ps
    = (Some t, ps1, tr1) →
  detected_listener calls l msg t ps1 = (Raised ex, ps2) →
  on_message calls self msg text ps =
    (let '(r, ps3, tr3) := message_stages calls self post msg t ps2 in
     (r, ps3,
      LogDebug ("Received message from " +:+ sender_addr msg)
        :: tr1 ++ CallDetected l msg t :: LogException ex :: tr3))
  ∧ (∀ t' ps3 tr3,
       detected_loop calls "Message rejected" post msg t ps2 = (Some t', ps3, tr3) →
       (∃ p, result (on_message calls self msg text ps) = (Completed p, msg))
       ∧ marked_seen_once_at_end (trace (on_message calls self msg text ps)) msg).
Proof.
  intros Hv Hel Hpre Hl.
  assert (Heq : on_message calls self msg text ps =
    (let '(r, ps3, tr3) := message_stages calls self post msg t ps2 in
     (r, ps3,
      LogDebug ("Received message from " +:+ sender_addr msg)
        :: tr1 ++ CallDetected l msg t :: LogException ex :: tr3))).
  { unfold on_message, message_stages, bind, emit, ret. rewrite Hv, Hel.
    fold (start_text msg text).
    rewrite detected_loop_app, Hpre. simpl.
    unfold bind, call_detected, emit, ret. rewrite Hl. simpl.
    destruct (detected_loop calls _ post msg t ps2) as [[[t'|] ps3] tr3]; simpl.
    - destruct (message_resolution calls self msg t' ps3) as [[r ps4] tr4].
      by rewrite <- app_assoc.
    - by rewrite !app_nil_r. }
  split; [done|].
  intros t' ps3 tr3 Hpost. rewrite Heq.
  pose proof (message_stages_shape calls self post msg t ps2) as Hs.
  rewrite Hpost in Hs. destruct Hs as (p & body & -> & Hbody).
  pose proof (detected_loop_shape calls "Message rejected" pre msg
                (start_text msg text) ps) as Hs1.
  rewrite Hpre in Hs1. simpl.
  split; [by exists p|].
  apply marked_seen_after_debug.
  replace (tr1 ++ CallDetected l msg t :: LogException ex :: body
             ++ [MarkSeenMessages msg])
    with ((tr1 ++ CallDetected l msg t :: LogException ex :: body)
            ++ [MarkSeenMessages msg])
    by (by rewrite <- app_assoc).
  apply loop_events_then_seen.
  rewrite Forall_app. split.
  - eapply loop_events_is_call; [|exact Hs1]. by intros [].
  - by repeat constructor.
Qed.

Lemma detected_fault_isolated_witness :
  on_message demo_calls faulty_bot (chat_msg "hello") None 0 =
    ((Completed true, chat_msg "hello"), 5,
     [LogDebug "Received message from alice@example.org";
      CallDetected 4 (chat_msg "hello") "hello";
      CallDetected 3 (chat_msg "hello") "hello";
      LogException "listener failed";
      CallDetected 1 (chat_msg "hello") "hello";
      CallFilter 1 (chat_msg "hello") "hello!";
      LogDebug "Message processed";
      CallProcessed 5 (chat_msg "hello") true;
      MarkSeenMessages (chat_msg "hello")]).
Proof.
  apply (proj1 (detected_fault_isolated demo_calls faulty_bot (chat_msg "hello")
                  None 0 "1.0" [4] [1] 3 "hello" 1 2
                  [CallDetected 4 (chat_msg "hello") "hello"] "listener failed"
                  eq_refl eq_refl eq_refl eq_refl)).
Defined.


(** ** Stage 3 of the message pipeline: the filters *)

Lemma filter_loop_result {PS} (calls : Callables PS) fs msg text processed ps :
  result (filter_loop calls fs msg text processed ps) =
  processed || foldr orb false (acted <$> filter_outcomes calls fs msg text ps).
Proof.
  revert processed ps. induction fs as [|f rest IH]; intros processed ps; simpl.
  - by rewrite orb_false_r.
  - unfold bind, call_filter, emit, ret, result.
    destruct (message_filter calls f msg text ps) as [[[|]|ex] ps1]; simpl.
    + specialize (IH true ps1). unfold result in IH.
      destruct (filter_loop _ rest _ _ _ _) as [[b ps2] tr]. simpl in *.
      rewrite IH. by rewrite orb_true_r.
    + specialize (IH processed ps1). unfold result in IH.
      by destruct (filter_loop _ rest _ _ _ _) as [[b ps2] tr].
    + specialize (IH processed ps1). unfold result in IH.
      by destruct (filter_loop _ rest _ _ _ _) as [[b ps2] tr].
Qed.

Lemma filter_loop_calls {PS} (calls : Callables PS) fs msg text processed ps :
  List.filter is_filter_call (trace (filter_loop calls fs msg text processed ps)) =
  (λ f, CallFilter f msg text) <$> fs.
Proof.
  revert processed ps. induction fs as [|f rest IH]; intros processed ps; simpl.
  - done.
  - unfold bind, call_filter, emit, ret, trace.
    destruct (message_filter calls f msg text ps) as [[[|]|ex] ps1]; simpl.
    + specialize (IH true ps1). unfold trace in IH.
      destruct (filter_loop _ rest _ _ _ _) as [[b ps2] tr]. simpl in *.
      by rewrite IH.
    + specialize (IH processed ps1). unfold trace in IH.
      destruct (filter_loop _ rest _ _ _ _) as [[b ps2] tr]. simpl in *.
      by rewrite IH.
    + specialize (IH processed ps1). unfold trace in IH.
      destruct (filter_loop _ rest _ _ _ _) as [[b ps2] tr]. simpl in *.
      by rewrite IH.
Qed.

(** C3.  In a message dispatch that reaches filter resolution (the item
    has its metadata and the detected listeners passed on a text [t]),
    every registered filter is called once, in the order of the list and
    whatever the filters before it did, and the [processed] of the
    dispatch is the logical OR of what the filters returned, a filter that
    raised counting as false. *)
Theorem filters_all_run_and_or {PS} (calls : Callables PS)
    (self : SimpleBot) (msg : Message) (text : option string) (ps : PS)
    (v t : string) (ps1 : PS) (tr1 : list event) :
  chat_version msg = Some v →
  detected_loop calls "Message rejected" (elements (_mdl self)) msg
    (start_text msg text) ps = (Some t, ps1, tr1) →
  result (on_message calls self msg text ps) =
    (Completed
       (foldr orb false (acted <$> filter_outcomes calls (filters self) msg t ps1)),
     msg)
  ∧ List.filter is_filter_call (trace (on_message calls self msg text ps)) =
    (λ f, CallFilter f msg t) <$> filters self
  ∧ length (filter_outcomes calls (filters self) msg t ps1) = length (filters self).
Proof.
  intros Hv Hd.
  rewrite (on_message_accepted calls self msg text ps v t ps1 tr1 Hv Hd).
  pose proof (filter_loop_result calls (filters self) msg t false ps1) as Hr.
  pose proof (filter_loop_calls calls (filters self) msg t false ps1) as Hc.
  pose proof (detected_loop_shape calls "Message rejected" (elements (_mdl self))
                msg (start_text msg text) ps) as Hs.
  rewrite Hd in Hs.
  unfold result, trace in *.
  destruct (filter_loop calls _ msg t false ps1) as [[p ps2] tr2].
  pose proof (processed_loop_events calls (elements (_mpl self)) msg p ps2) as Hp.
  unfold trace in Hp.
  destruct (processed_loop calls _ msg p ps2) as [[[] ps3] tr3].
  simpl in *. split_and!.
  - by rewrite Hr.
  - rewrite !List.filter_app, Hc.
    rewrite (loop_events_filter is_detected_call is_filter_call msg tr1 Hs);
      [|done|done|by intros []|done|done].
    rewrite (loop_events_filter is_processed_call is_filter_call msg tr3 Hp);
      [|done|done|by intros []|done|done].
    destruct p; simpl; by rewrite app_nil_r.
  - clear. generalize ps1. induction (filters self) as [|f fs IH]; intros q; simpl.
    + done.
    + destruct (message_filter calls f msg t q) as [r q']. simpl. by rewrite IH.
Qed.

Lemma filters_all_run_and_or_witness :
  result (on_message demo_calls demo_bot (chat_msg "hello") None 0) =
    (Completed true, chat_msg "hello")
  ∧ List.filter is_filter_call
      (trace (on_message demo_calls demo_bot (chat_msg "hello") None 0)) =
    [CallFilter 2 (chat_msg "hello") "hello!";
     CallFilter 3 (chat_msg "hello") "hello!";
     CallFilter 1 (chat_msg "hello") "hello!";
     CallFilter 2 (chat_msg "hello") "hello!"]
  ∧ length (filter_outcomes demo_calls [2; 3; 1; 2] (chat_msg "hello") "hello!" 1) = 4.
Proof.
  apply (filters_all_run_and_or demo_calls demo_bot (chat_msg "hello") None 0
           "1.0" "hello!" 1 [CallDetected 1 (chat_msg "hello") "hello"]);
    reflexivity.
Defined.

(** ** Stage 3 of the command pipeline: the handlers *)

Lemma dict_get_key cmd (d : list (string * callable)) :
  cmd ∈ dict_keys d → is_Some (dict_get cmd d).
Proof.
  unfold dict_keys. induction d as [|[k h] d IH]; simpl.
  - by intros ?%elem_of_nil.
  - intros [->|Hin]%elem_of_cons; case_decide; eauto; done.
Qed.

Lemma command_loop_no_match {PS} (calls : Callables PS) get_args d cmds msg text ps :
  (∀ c, c ∈ cmds → get_args c text = None) →
  command_loop calls get_args d cmds msg text ps = (false, ps, []).
Proof.
  induction cmds as [|c cmds IH]; intros Hno; simpl; [done|].
  rewrite (Hno c) by set_solver. apply IH. intros c' Hc'. apply Hno. set_solver.
Qed.

Lemma command_loop_skip {PS} (calls : Callables PS) get_args d pre cmds msg text ps :
  (∀ c, c ∈ pre → get_args c text = None) →
  command_loop calls get_args d (pre ++ cmds) msg text ps =
  command_loop calls get_args d cmds msg text ps.
Proof.
  induction pre as [|c pre IH]; intros Hno; simpl; [done|].
  rewrite (Hno c) by set_solver. apply IH. intros c' Hc'. apply Hno. set_solver.
Qed.

(** C1, as the code has it.  Let [cmd] be the first command name, in the
    order of the [commands] dict, that matches the text.  Its callback is
    called with the arguments.  If the callback returns, [processed] is
    true and no further name is tried.  If it raises, the exception is
    logged, [processed] is not set, and the scan goes on with the names
    after [cmd]: [processed] is then what the rest of the scan yields,
    which is false when no later name matches.  When no name matches at
    all, nothing is called and [processed] is false. *)
Theorem command_first_match_unless_raises {PS} (calls : Callables PS)
    (get_args : string → string → option string)
    (d : list (string * callable)) (pre post : list string) (cmd args : string)
    (msg : Message) (text : string) (ps : PS) :
  dict_keys d = pre ++ cmd :: post →
  (∀ c, c ∈ pre → get_args c text = None) →
  get_args cmd text = Some args →
  (∃ h, dict_get cmd d = Some h
     ∧ command_loop calls get_args d (dict_keys d) msg text ps =
       match command_action calls h msg args ps with
       | (Returned _, ps1) =>
           (true, ps1,
            [CallCommand cmd h msg args; LogDebug ("Command processed: " +:+ cmd)])
       | (Raised ex, ps1) =>
           let '(p, ps2, tr) := command_loop calls get_args d post msg text ps1 in
           (p, ps2, CallCommand cmd h msg args :: LogException ex :: tr)
       end)
  ∧ ((∀ c, c ∈ post → get_args c text = None) →
     ∀ h ex ps1, dict_get cmd d = Some h →
       command_action calls h msg args ps = (Raised ex, ps1) →
       command_loop calls get_args d (dict_keys d) msg text ps =
         (false, ps1, [CallCommand cmd h msg args; LogException ex])).
Proof.
  intros Hkeys Hpre Hcmd.
  assert (Hloop : ∀ h, dict_get cmd d = Some h →
     command_loop calls get_args d (dict_keys d) msg text ps =
       match command_action calls h msg args ps with
       | (Returned _, ps1) =>
           (true, ps1,
            [CallCommand cmd h msg args; LogDebug ("Command processed: " +:+ cmd)])
       | (Raised ex, ps1) =>
           let '(p, ps2, tr) := command_loop calls get_args d post msg text ps1 in
           (p, ps2, CallCommand cmd h msg args :: LogException ex :: tr)
       end).
  { intros h Hh. rewrite Hkeys, command_loop_skip by done. simpl.
    rewrite Hcmd. unfold bind, call_command, emit, ret. rewrite Hh.
    destruct (command_action calls h msg args ps) as [[[]|ex] ps1]; simpl; [done|].
    by destruct (command_loop calls get_args d post msg text ps1) as [[p ps2] tr]. }
  split.
  - destruct (dict_get_key cmd d) as [h Hh]; [rewrite Hkeys; set_solver|].
    exists h. split; [done|]. by apply Hloop.
  - intros Hpost h ex ps1 Hh Hraise.
    rewrite (Hloop h Hh), Hraise.
    by rewrite command_loop_no_match.
Qed.

Lemma command_first_match_unless_raises_witness :
  command_loop demo_calls get_args_spec [("/ping", 2)] ["/ping"]
    (chat_msg "/ping") "/ping" 0 =
  (false, 1, [CallCommand "/ping" 2 (chat_msg "/ping") ""; LogException "action failed"]).
Proof.
  refine (proj2 (command_first_match_unless_raises demo_calls get_args_spec
                   [("/ping", 2)] [] [] "/ping" "" (chat_msg "/ping") "/ping" 0
                   eq_refl _ eq_refl) _ 2 "action failed" 1 eq_refl eq_refl);
    intros c Hc; inversion Hc.
Defined.

(** C1, as the spec has it, fails: with [/ping] registered and its
    callback raising, the command [/ping] is dispatched, the callback is
    called and its exception logged, and the dispatch completes with
    [processed] false, as the processed listeners and the debug record
    would see it. *)
Lemma raising_handler_leaves_unprocessed :
  on_command demo_calls get_args_spec (ping_bot 2) (chat_msg "/ping") None 0 =
    ((Completed false, set_user_agent "unknow" (chat_msg "/ping")), 1,
     [LogDebug "Received command from alice@example.org";
      CallCommand "/ping" 2 (set_user_agent "unknow" (chat_msg "/ping")) "";
      LogException "action failed";
      LogDebug "Command was not processed";
      MarkSeenMessages (set_user_agent "unknow" (chat_msg "/ping"))])
  ∧ (result (on_command demo_calls get_args_spec (ping_bot 2)
               (chat_msg "/ping") None 0)).1 ≠ Completed true.
Proof. split; [reflexivity | discriminate]. Qed.

(** ** The alternate-output marker *)

(** C6, as the code has it.  In a command dispatch past the intake guard
    the text is first tried against the marker [/z].  When it matches, the
    message is tagged [zhv] and the detected command listeners and the
    handler matching get the text with the marker stripped; otherwise the
    message is tagged [unknow] and they get the text as it was.  This
    holds for any [get_args]; with command matching as the spec describes
    it, a text that starts with [/z] and a blank goes on as what follows
    the blanks.  In particular, with the handler [/ping] registered and no
    detected command listener, the command [/z /ping] tags the message
    [zhv] and calls the callback of [/ping] once, with the empty argument
    string; [processed] is true when that callback returns and false when
    it raises. *)
Theorem command_marker_tagged_and_stripped {PS} (calls : Callables PS)
    (self : SimpleBot) (msg : Message) (text : option string) (ps : PS)
    (v : string) (h : callable) :
  chat_version msg = Some v →
  (∀ get_args real,
     get_args "/z" (start_text msg text) = Some real →
     on_command calls get_args self msg text ps =
       let '(r, ps1, tr1) :=
         command_stages calls get_args self (elements (_cdl self))
           (set_user_agent "zhv" msg) real ps in
       (r, ps1, LogDebug ("Received command from " +:+ sender_addr msg) :: tr1))
  ∧ (∀ get_args,
     get_args "/z" (start_text msg text) = None →
     on_command calls get_args self msg text ps =
       let '(r, ps1, tr1) :=
         command_stages calls get_args self (elements (_cdl self))
           (set_user_agent "unknow" msg) (start_text msg text) ps in
       (r, ps1, LogDebug ("Received command from " +:+ sender_addr msg) :: tr1))
  ∧ (∀ rest,
     start_text msg text = "/z " +:+ rest →
     on_command calls get_args_spec self msg text ps =
       let '(r, ps1, tr1) :=
         command_stages calls get_args_spec self (elements (_cdl self))
           (set_user_agent "zhv" msg) (lstrip rest) ps in
       (r, ps1, LogDebug ("Received command from " +:+ sender_addr msg) :: tr1))
  ∧ (start_text msg text = "/z /ping" →
     _cdl self = ∅ →
     commands self = [("/ping", h)] →
     List.filter is_command_call
       (trace (on_command calls get_args_spec self msg text ps)) =
       [CallCommand "/ping" h (set_user_agent "zhv" msg) ""]
     ∧ result (on_command calls get_args_spec self msg text ps) =
       (Completed
          match (command_action calls h (set_user_agent "zhv" msg) "" ps).1 with
          | Returned _ => true
          | Raised _ => false
          end,
        set_user_agent "zhv" msg)).
Proof.
  intros Hv. split_and!.
  - intros get_args real Hz.
    rewrite (on_command_tagged calls get_args self msg text ps v Hv).
    unfold origin_tag, command_text. by rewrite Hz.
  - intros get_args Hz.
    rewrite (on_command_tagged calls get_args self msg text ps v Hv).
    unfold origin_tag, command_text. by rewrite Hz.
  - intros rest Hrest.
    rewrite (on_command_tagged calls get_args_spec self msg text ps v Hv), Hrest.
    done.
  - intros Htext Hcdl Hcmds.
    rewrite (on_command_tagged calls get_args_spec self msg text ps v Hv), Htext.
    change (origin_tag get_args_spec "/z /ping") with "zhv".
    change (command_text get_args_spec "/z /ping") with "/ping".
    rewrite Hcdl, elements_empty.
    rewrite (command_stages_accepted calls get_args_spec self []
               (set_user_agent "zhv" msg) "/ping" ps "/ping" ps []) by done.
    rewrite Hcmds. simpl.
    change (get_args_spec "/ping" "/ping") with (Some "").
    unfold bind, call_command, emit, ret. simpl.
    destruct (command_action calls h (set_user_agent "zhv" msg) "" ps)
      as [[[]|ex] ps']; simpl.
    + pose proof (processed_loop_events calls (elements (_cpl self))
                    (set_user_agent "zhv" msg) true ps') as Hp.
      unfold trace, result in *.
      destruct (processed_loop calls _ _ true ps') as [[[] ps3] tr3]. simpl.
      split; [|done].
      rewrite List.filter_app. simpl.
      rewrite (loop_events_filter is_processed_call is_command_call _ tr3 Hp);
        [done|done|done|by intros []|done|done].
    + pose proof (processed_loop_events calls (elements (_cpl self))
                    (set_user_agent "zhv" msg) false ps') as Hp.
      unfold trace, result in *.
      destruct (processed_loop calls _ _ false ps') as [[[] ps3] tr3]. simpl.
      split; [|done].
      rewrite List.filter_app. simpl.
      rewrite (loop_events_filter is_processed_call is_command_call _ tr3 Hp);
        [done|done|done|by intros []|done|done].
Qed.

Lemma command_marker_tagged_and_stripped_witness :
  List.filter is_command_call
    (trace (on_command demo_calls get_args_spec (ping_bot 1)
              (chat_msg "/z /ping") None 0)) =
    [CallCommand "/ping" 1 (set_user_agent "zhv" (chat_msg "/z /ping")) ""]
  ∧ result (on_command demo_calls get_args_spec (ping_bot 1)
              (chat_msg "/z /ping") None 0) =
    (Completed true, set_user_agent "zhv" (chat_msg "/z /ping")).
Proof.
  apply (command_marker_tagged_and_stripped demo_calls (ping_bot 1)
           (chat_msg "/z /ping") None 0 "1.0" 1 eq_refl);
    reflexivity.
Defined.

(** C6, as the spec has it, fails in its scenario: with [/ping]
    registered, the command [/z /ping] is tagged and stripped and the
    callback of [/ping] is called with the empty argument string, but when
    that callback raises the dispatch ends with [processed] false. *)
Lemma z_ping_raising_handler_unprocessed :
  on_command demo_calls get_args_spec (ping_bot 2) (chat_msg "/z /ping") None 0 =
    ((Completed false, set_user_agent "zhv" (chat_msg "/z /ping")), 1,
     [LogDebug "Received command from alice@example.org";
      CallCommand "/ping" 2 (set_user_agent "zhv" (chat_msg "/z /ping")) "";
      LogException "action failed";
      LogDebug "Command was not processed";
      MarkSeenMessages (set_user_agent "zhv" (chat_msg "/z /ping"))])
  ∧ (result (on_command demo_calls get_args_spec (ping_bot 2)
               (chat_msg "/z /ping") None 0)).1 ≠ Completed true.
Proof. split; [reflexivity | discriminate]. Qed.

(** The scenario as a run: every record the dispatch leaves. *)
Example z_ping_run :
  on_command demo_calls get_args_spec (ping_bot 1) (chat_msg "/z /ping") None 0 =
    ((Completed true, set_user_agent "zhv" (chat_msg "/z /ping")), 1,
     [LogDebug "Received command from alice@example.org";
      CallCommand "/ping" 1 (set_user_agent "zhv" (chat_msg "/z /ping")) "";
      LogDebug "Command processed: /ping";
      MarkSeenMessages (set_user_agent "zhv" (chat_msg "/z /ping"))]).
Proof. reflexivity. Qed.

(** ** Marking seen *)

(** C9.  A dispatch, of a message or of a command, calls the account
    exactly once, and last.  When the item lacks its metadata (stage 1) or
    a detected listener returns [None] (stage 2) the call is
    [delete_messages] and [mark_seen_messages] is never called; in every
    other case the call is [mark_seen_messages] and nothing is deleted. *)
Theorem seen_once_unless_discarded {PS} (calls : Callables PS)
    (get_args : string → string → option string)
    (self : SimpleBot) (msg : Message) (text : option string) (ps : PS) :
  match chat_version msg with
  | None =>
      result (on_message calls self msg text ps) = (RejectedByIntake, msg)
      ∧ deleted_and_never_seen (trace (on_message calls self msg text ps)) msg
  | Some _ =>
      match detected_loop calls "Message rejected" (elements (_mdl self)) msg
              (start_text msg text) ps with
      | (Some _, _, _) =>
          (∃ p, result (on_message calls self msg text ps) = (Completed p, msg))
          ∧ marked_seen_once_at_end (trace (on_message calls self msg text ps)) msg
      | (None, _, _) =>
          result (on_message calls self msg text ps) = (RejectedByListener, msg)
          ∧ deleted_and_never_seen (trace (on_message calls self msg text ps)) msg
      end
  end
  ∧
  match chat_version msg with
  | None =>
      result (on_command calls get_args self msg text ps) = (RejectedByIntake, msg)
      ∧ deleted_and_never_seen (trace (on_command calls get_args self msg text ps)) msg
  | Some _ =>
      let msg' := set_user_agent (origin_tag get_args (start_text msg text)) msg in
      match detected_loop calls "Command rejected" (elements (_cdl self)) msg'
              (command_text get_args (start_text msg text)) ps with
      | (Some _, _, _) =>
          (∃ p, result (on_command calls get_args self msg text ps)
                = (Completed p, msg'))
          ∧ marked_seen_once_at_end
              (trace (on_command calls get_args self msg text ps)) msg'
      | (None, _, _) =>
          result (on_command calls get_args self msg text ps)
            = (RejectedByListener, msg')
          ∧ deleted_and_never_seen
              (trace (on_command calls get_args self msg text ps)) msg'
      end
  end.
Proof.
  destruct (chat_version msg) as [v|] eqn:Hv.
  - split.
    + rewrite (on_message_stages calls self msg text ps v Hv).
      pose proof (message_stages_shape calls self (elements (_mdl self)) msg
                    (start_text msg text) ps) as Hs.
      destruct (detected_loop calls _ _ msg _ ps) as [[[t|] ps1] tr1].
      * destruct Hs as (p & body & -> & Hbody). simpl. split; [by exists p|].
        by apply marked_seen_after_debug, loop_events_then_seen.
      * destruct Hs as (body & -> & Hbody). simpl. split; [done|].
        by apply deleted_after_debug, loop_events_then_deleted.
    + rewrite (on_command_tagged calls get_args self msg text ps v Hv).
      pose proof (command_stages_shape calls get_args self (elements (_cdl self))
                    (set_user_agent (origin_tag get_args (start_text msg text)) msg)
                    (command_text get_args (start_text msg text)) ps) as Hs.
      simpl.
      destruct (detected_loop calls _ _ _ _ ps) as [[[t|] ps1] tr1].
      * destruct Hs as (p & body & -> & Hbody). simpl. split; [by exists p|].
        by apply marked_seen_after_debug, loop_events_then_seen.
      * destruct Hs as (body & -> & Hbody). simpl. split; [done|].
        by apply deleted_after_debug, loop_events_then_deleted.
  - unfold on_message, on_command, bind, emit, ret. rewrite Hv. simpl.
    split; (split; [done|]);
      by eexists [LogDebug _; LogDebug "Classic email rejected"].
Qed.

(** ** The origin tag *)

Lemma dispatch_trace_message msg s body last e m :
  Forall (loop_event is_call msg) body →
  event_message last = Some msg →
  e ∈ LogDebug s :: body ++ [last] →
  event_message e = Some m → m = msg.
Proof.
  intros Hbody Hlast [->|[He| ->%list_elem_of_singleton]%elem_of_app]%elem_of_cons Hm.
  - done.
  - by eapply loop_events_message.
  - congruence.
Qed.

(** C10.  [on_message] never writes the origin tag: the message it leaves
    is the message it got, and every callback and account call it makes is
    handed that message.  [on_command], past the intake guard, always
    writes it, [zhv] when the marker matches and [unknow] otherwise, and
    does so before anything else: every detected command listener,
    handler and processed listener, and the closing account call, are
    handed the message with the new tag, and the message is left with that
    tag however the dispatch ends (rejected by a listener, no handler
    matched, or processed). *)
Theorem origin_tag_written_by_commands_only {PS} (calls : Callables PS)
    (get_args : string → string → option string)
    (self : SimpleBot) (msg : Message) (text : option string) (ps : PS) :
  ((result (on_message calls self msg text ps)).2 = msg
   ∧ ∀ e m, e ∈ trace (on_message calls self msg text ps) →
            event_message e = Some m → m = msg)
  ∧ (∀ v, chat_version msg = Some v →
       let tag := origin_tag get_args (start_text msg text) in
       (result (on_command calls get_args self msg text ps)).2
         = set_user_agent tag msg
       ∧ user_agent (result (on_command calls get_args self msg text ps)).2
         = Some (match get_args "/z" (start_text msg text) with
                 | Some _ => "zhv"
                 | None => "unknow"
                 end)
       ∧ ∀ e m, e ∈ trace (on_command calls get_args self msg text ps) →
                event_message e = Some m → m = set_user_agent tag msg).
Proof.
  split.
  - destruct (chat_version msg) as [v|] eqn:Hv.
    + rewrite (on_message_stages calls self msg text ps v Hv).
      pose proof (message_stages_shape calls self (elements (_mdl self)) msg
                    (start_text msg text) ps) as Hs.
      destruct (detected_loop calls _ _ msg _ ps) as [[[t|] ps1] tr1].
      * destruct Hs as (p & body & -> & Hbody). simpl. split; [done|].
        intros e m. by apply dispatch_trace_message.
      * destruct Hs as (body & -> & Hbody). simpl. split; [done|].
        intros e m. by apply dispatch_trace_message.
    + unfold on_message, bind, emit, ret. rewrite Hv. simpl. split; [done|].
      intros e m He Hm. revert Hm.
      repeat (apply elem_of_cons in He as [->|He]); simpl; try congruence.
      by apply elem_of_nil in He.
  - intros v Hv tag.
    rewrite (on_command_tagged calls get_args self msg text ps v Hv).
    pose proof (command_stages_shape calls get_args self (elements (_cdl self))
                  (set_user_agent tag msg)
                  (command_text get_args (start_text msg text)) ps) as Hs.
    fold tag.
    assert (Hua : user_agent (set_user_agent tag msg)
                  = Some (match get_args "/z" (start_text msg text) with
                          | Some _ => "zhv"
                          | None => "unknow"
                          end)).
    { unfold tag, origin_tag. by destruct (get_args "/z" _). }
    destruct (detected_loop calls _ _ _ _ ps) as [[[t|] ps1] tr1].
    + destruct Hs as (p & body & -> & Hbody). simpl. split_and!; [done|done|].
      intros e m. by apply dispatch_trace_message.
    + destruct Hs as (body & -> & Hbody). simpl. split_and!; [done|done|].
      intros e m. by apply dispatch_trace_message.
Qed.

Lemma origin_tag_written_by_commands_only_witness :
  (result (on_command demo_calls get_args_spec veto_bot
             (chat_msg "/ping") None 0)).1 = RejectedByListener
  ∧ (result (on_command demo_calls get_args_spec veto_bot
               (chat_msg "/ping") None 0)).2
    = set_user_agent "unknow" (chat_msg "/ping").
Proof.
  split; [reflexivity|].
  apply (proj2 (origin_tag_written_by_commands_only demo_calls get_args_spec
                  veto_bot (chat_msg "/ping") None 0) "1.0" eq_refl).
Defined.

(** ** The plugin lifecycle *)

Lemma deactivate_plugins_app {PS} (pre post : list (Plugin PS)) s :
  deactivate_plugins (pre ++ post) s =
    let '(_, s1, tr1) := deactivate_plugins pre s in
    let '(u, s2, tr2) := deactivate_plugins post s1 in
    (u, s2, tr1 ++ tr2).
Proof.
  revert s. induction pre as [|p pre IH]; intros s; simpl.
  - unfold ret. by destruct (deactivate_plugins post s) as [[[] s2] tr2].
  - unfold bind, call_deactivate, emit, ret.
    destruct (deactivate p s.1 s.2) as [[[]|ex] s1]; simpl; rewrite IH;
      destruct (deactivate_plugins pre s1) as [[[] s2] tr1];
      by destruct (deactivate_plugins post s2) as [[[] s3] tr2].
Qed.

Lemma deactivate_plugins_calls {PS} (plugins : list (Plugin PS)) s :
  List.filter is_lifecycle_call (trace (deactivate_plugins plugins s)) =
  (λ p, CallDeactivate (name p)) <$> plugins.
Proof.
  revert s. induction plugins as [|p rest IH]; intros s; simpl; [done|].
  unfold bind, call_deactivate, emit, ret, trace.
  destruct (deactivate p s.1 s.2) as [[[]|ex] s1]; simpl;
    specialize (IH s1); unfold trace in IH;
    destruct (deactivate_plugins rest s1) as [[[] s2] tr]; simpl in *;
    by rewrite IH.
Qed.

Lemma activate_plugins_calls {PS} (plugins : list (Plugin PS)) s :
  result (activate_plugins plugins s) = Returned tt →
  trace (activate_plugins plugins s) = (λ p, CallActivate (name p)) <$> plugins.
Proof.
  revert s. induction plugins as [|p rest IH]; intros s; simpl; [done|].
  unfold bind, call_activate, emit, ret, trace, result.
  destruct (activate p s.1 s.2) as [[[]|ex] s1]; simpl; [|done].
  specialize (IH s1). unfold trace, result in IH.
  destruct (activate_plugins rest s1) as [[r s2] tr]; simpl in *.
  intros Hr. by rewrite IH.
Qed.

(** C7.  [deactivate_plugins] calls the deactivation hook of every loaded
    plugin, once, in the order of the list, which is the order in which
    [activate_plugins] calls the activation hooks; in a run of [start]
    whose activations all return the hooks are called as activations in
    load order followed by deactivations in load order.  A hook that
    raises has its exception logged and the plugins after it are
    deactivated like the others. *)
Theorem deactivation_in_load_order {PS} (plugins : list (Plugin PS))
    (s : SimpleBot * PS) :
  List.filter is_lifecycle_call (trace (deactivate_plugins plugins s)) =
    (λ p, CallDeactivate (name p)) <$> plugins
  ∧ (result (activate_plugins plugins s) = Returned tt →
     trace (activate_plugins plugins s) = (λ p, CallActivate (name p)) <$> plugins
     ∧ ∀ super_start,
         (∀ s', List.filter is_lifecycle_call (trace (super_start s')) = []) →
         List.filter is_lifecycle_call (trace (start super_start plugins s)) =
           ((λ p, CallActivate (name p)) <$> plugins)
           ++ ((λ p, CallDeactivate (name p)) <$> plugins))
  ∧ (∀ pre p post ex s1 tr1 s2,
       plugins = pre ++ p :: post →
       deactivate_plugins pre s = (tt, s1, tr1) →
       deactivate p s1.1 s1.2 = (Raised ex, s2) →
       deactivate_plugins plugins s =
         let '(u, s3, tr3) := deactivate_plugins post s2 in
         (u, s3, tr1 ++ CallDeactivate (name p) :: LogException ex :: tr3)).
Proof.
  split_and!.
  - apply deactivate_plugins_calls.
  - intros Hr. pose proof (activate_plugins_calls plugins s Hr) as Ha.
    split; [done|]. intros super_start Hsuper.
    unfold start, bind, ret, trace, result in *.
    destruct (activate_plugins plugins s) as [[r s1] tr1]. simpl in *. subst r.
    specialize (Hsuper s1).
    destruct (super_start s1) as [[r' s2] tr2]. simpl in *.
    pose proof (deactivate_plugins_calls plugins s2) as Hd. unfold trace in Hd.
    destruct (deactivate_plugins plugins s2) as [[[] s3] tr3]. simpl in *.
    rewrite !List.filter_app, Hsuper, Hd, Ha. simpl. rewrite app_nil_r.
    f_equal. clear.
    induction plugins as [|p rest IH]; simpl; [done|]. by f_equal.
  - intros pre p post ex s1 tr1 s2 -> Hpre Hp.
    rewrite deactivate_plugins_app, Hpre. simpl.
    unfold bind, call_deactivate, emit, ret. rewrite Hp. simpl.
    by destruct (deactivate_plugins post s2) as [[[] s3] tr3].
Qed.

Lemma deactivation_in_load_order_witness :
  trace (activate_plugins demo_plugins (empty_bot, 0)) =
    [CallActivate "first"; CallActivate "second"; CallActivate "third"]
  ∧ deactivate_plugins demo_plugins (empty_bot, 3) =
    (tt,
     (remove_on_msg_detected_listener 2
        (remove_on_msg_detected_listener 3 empty_bot), 1),
     [CallDeactivate "first"; CallDeactivate "second";
      LogException "deactivation failed"; CallDeactivate "third"]).
Proof.
  split.
  - apply (proj1 (proj1 (proj2 (deactivation_in_load_order demo_plugins
                                  (empty_bot, 0))) eq_refl)).
  - apply (proj2 (proj2 (deactivation_in_load_order demo_plugins (empty_bot, 3)))
             [demo_plugin "first" false] (demo_plugin "second" true)
             [demo_plugin "third" false] "deactivation failed"
             (remove_on_msg_detected_listener 3 empty_bot, 2)
             [CallDeactivate "first"]
             (remove_on_msg_detected_listener 3 empty_bot, 2));
      reflexivity.
Defined.

(** ** The registries *)

Lemma set_add_twice (l : callable) (X : gset callable) :
  {[l]} ∪ ({[l]} ∪ X) = {[l]} ∪ X.
Proof. by rewrite (assoc_L (∪)), union_idemp_L. Qed.

Lemma set_discard_absent (l : callable) (X : gset callable) :
  l ∉ X → X ∖ {[l]} = X.
Proof. intros Hl. apply difference_disjoint_L. by apply disjoint_singleton_r. Qed.

(** C8.  In each of the four listener registries, adding a callback that
    was just added leaves the bot as the first addition left it, so that
    [on_message] and [on_command] behave the same after one addition and
    after two; and removing a callback that is not registered leaves the
    bot as it was. *)
Theorem registration_idempotent (listener : callable) (self : SimpleBot) :
  (add_on_msg_detected_listener listener (add_on_msg_detected_listener listener self)
     = add_on_msg_detected_listener listener self
   ∧ add_on_msg_processed_listener listener (add_on_msg_processed_listener listener self)
     = add_on_msg_processed_listener listener self
   ∧ add_on_cmd_detected_listener listener (add_on_cmd_detected_listener listener self)
     = add_on_cmd_detected_listener listener self
   ∧ add_on_cmd_processed_listener listener (add_on_cmd_processed_listener listener self)
     = add_on_cmd_processed_listener listener self)
  ∧ (∀ PS (calls : Callables PS) get_args msg text ps,
       on_message calls
         (add_on_msg_detected_listener listener
            (add_on_msg_detected_listener listener self)) msg text ps
       = on_message calls (add_on_msg_detected_listener listener self) msg text ps
       ∧ on_message calls
           (add_on_msg_processed_listener listener
              (add_on_msg_processed_listener listener self)) msg text ps
         = on_message calls (add_on_msg_processed_listener listener self) msg text ps
       ∧ on_command calls get_args
           (add_on_cmd_detected_listener listener
              (add_on_cmd_detected_listener listener self)) msg text ps
         = on_command calls get_args
             (add_on_cmd_detected_listener listener self) msg text ps
       ∧ on_command calls get_args
           (add_on_cmd_processed_listener listener
              (add_on_cmd_processed_listener listener self)) msg text ps
         = on_command calls get_args
             (add_on_cmd_processed_listener listener self) msg text ps)
  ∧ (listener ∉ _mdl self → remove_on_msg_detected_listener listener self = self)
  ∧ (listener ∉ _mpl self → remove_on_msg_processed_listener listener self = self)
  ∧ (listener ∉ _cdl self → remove_on_cmd_detected_listener listener self = self)
  ∧ (listener ∉ _cpl self → remove_on_cmd_processed_listener listener self = self).
Proof.
  pose proof (set_add_twice listener) as Hadd.
  pose proof (set_discard_absent listener) as Hdel.
  assert (H4 :
    add_on_msg_detected_listener listener (add_on_msg_detected_listener listener self)
      = add_on_msg_detected_listener listener self
    ∧ add_on_msg_processed_listener listener (add_on_msg_processed_listener listener self)
      = add_on_msg_processed_listener listener self
    ∧ add_on_cmd_detected_listener listener (add_on_cmd_detected_listener listener self)
      = add_on_cmd_detected_listener listener self
    ∧ add_on_cmd_processed_listener listener (add_on_cmd_processed_listener listener self)
      = add_on_cmd_processed_listener listener self).
  { destruct self as [mdl mpl cdl cpl cmds fs].
    unfold add_on_msg_detected_listener, add_on_msg_processed_listener,
      add_on_cmd_detected_listener, add_on_cmd_processed_listener; simpl.
    by rewrite !Hadd. }
  destruct H4 as (H1 & H2 & H3 & H4).
  split_and!; try done.
  - intros PS calls get_args msg text ps. by rewrite H1, H2, H3, H4.
  - intros Hin. destruct self as [mdl mpl cdl cpl cmds fs].
    unfold remove_on_msg_detected_listener; simpl in *. by rewrite Hdel.
  - intros Hin. destruct self as [mdl mpl cdl cpl cmds fs].
    unfold remove_on_msg_processed_listener; simpl in *. by rewrite Hdel.
  - intros Hin. destruct self as [mdl mpl cdl cpl cmds fs].
    unfold remove_on_cmd_detected_listener; simpl in *. by rewrite Hdel.
  - intros Hin. destruct self as [mdl mpl cdl cpl cmds fs].
    unfold remove_on_cmd_processed_listener; simpl in *. by rewrite Hdel.
Qed.

Lemma registration_idempotent_witness :
  remove_on_msg_detected_listener 7 demo_bot = demo_bot
  ∧ remove_on_cmd_processed_listener 7 demo_bot = demo_bot.
Proof.
  pose proof (registration_idempotent 7 demo_bot) as (_ & _ & Hmdl & _ & _ & Hcpl).
  split; [apply Hmdl | apply Hcpl]; simpl; by intros ?%elem_of_singleton.
Defined.

(** * Further properties *)

(** ** Strings *)

Lemma string_app_cons c (s t : string) : String c s +:+ t = String c (s +:+ t).
Proof. reflexivity. Qed.

Lemma string_app_assoc (s1 s2 s3 : string) :
  (s1 +:+ s2) +:+ s3 = s1 +:+ s2 +:+ s3.
Proof.
  induction s1 as [|c s1 IH]; [done|]. rewrite !string_app_cons. by f_equal.
Qed.

Lemma string_app_length (s1 s2 : string) :
  String.length (s1 +:+ s2) = String.length s1 + String.length s2.
Proof.
  induction s1 as [|c s1 IH]; [done|]. rewrite string_app_cons. simpl. by f_equal.
Qed.

Lemma string_app_inj_length (s1 s2 t1 t2 : string) :
  String.length s1 = String.length s2 →
  s1 +:+ t1 = s2 +:+ t2 → s1 = s2 ∧ t1 = t2.
Proof.
  revert s2. induction s1 as [|c s1 IH]; intros [|c' s2]; try done.
  rewrite !string_app_cons. simpl.
  intros [= Hlen] [= -> Heq]. by destruct (IH s2 Hlen Heq) as [-> ->].
Qed.

Lemma string_app_inj_r (s1 s2 t : string) :
  s1 +:+ t = s2 +:+ t → s1 = s2.
Proof.
  intros Heq. apply (string_app_inj_length s1 s2 t t); [|done].
  apply (f_equal String.length) in Heq. rewrite !string_app_length in Heq. lia.
Qed.

(** ** Blob paths *)

Lemma path_join_prefix (a : string) (sep_first : bool) :
  ∃ pre, ∀ b, starts_with_sep b = sep_first → path_join a b = pre +:+ b.
Proof.
  unfold path_join. destruct sep_first.
  - exists "". by intros b ->.
  - destruct (bool_decide (a = "") || ends_with_sep a).
    + exists a. by intros b ->.
    + exists (a +:+ "/"). intros b ->. by rewrite string_app_assoc.
Qed.

Lemma starts_with_sep_numbered (stem x y : string) :
  starts_with_sep (stem +:+ "-" +:+ x) = starts_with_sep (stem +:+ "-" +:+ y).
Proof. by destruct stem. Qed.

Lemma numbered_inj (blobdir stem ext : string) :
  Inj (=) (=) (numbered blobdir stem ext).
Proof.
  intros i j. unfold numbered.
  destruct (path_join_prefix blobdir
              (starts_with_sep (stem +:+ "-" +:+ pretty i +:+ ext))) as [pre Hpre].
  rewrite (Hpre _ eq_refl).
  rewrite (Hpre (stem +:+ "-" +:+ pretty j +:+ ext))
    by apply starts_with_sep_numbered.
  intros Heq. do 3 apply String.app_inj in Heq.
  apply string_app_inj_r in Heq. by apply (inj pretty).
Qed.

Lemma path_exists_true fs path : path_exists fs path = true ↔ is_Some (fs !! path).
Proof. unfold path_exists. by rewrite bool_decide_eq_true. Qed.

Lemma path_exists_false fs path : path_exists fs path = false ↔ fs !! path = None.
Proof.
  unfold path_exists. rewrite bool_decide_eq_false. by rewrite eq_None_not_Some.
Qed.

(** With the paths [candidate i .. candidate (i + k - 1)] taken and
    [candidate (i + k)] free, the loop entered on a taken path returns
    [candidate (i + k)], given [k + 1] rounds. *)
Lemma blobpath_loop_first_free fuel fs candidate path i k :
  path_exists fs path = true →
  (∀ j, j < k → path_exists fs (candidate (i + j)) = true) →
  path_exists fs (candidate (i + k)) = false →
  k < fuel →
  blobpath_loop fuel fs candidate path i = Some (candidate (i + k)).
Proof.
  revert fuel path i. induction k as [|k IH]; intros fuel path i Hpath Htaken Hfree Hfuel.
  - destruct fuel as [|fuel]; [lia|]. simpl. rewrite Hpath.
    rewrite Nat.add_0_r in *. destruct fuel; simpl; by rewrite Hfree.
  - destruct fuel as [|fuel]; [lia|]. simpl. rewrite Hpath.
    replace (i + S k) with (S i + k) in * by lia.
    apply IH; [| |done|lia].
    + specialize (Htaken 0). rewrite Nat.add_0_r in Htaken. apply Htaken. lia.
    + intros j Hj. replace (S i + j) with (i + S j) by lia. apply Htaken. lia.
Qed.

(** Among [size fs + 1] distinct paths one is free. *)
Lemma some_candidate_free (fs : gmap string node) (candidate : nat → string) i :
  Inj (=) (=) candidate →
  ∃ k, k ≤ size fs ∧ path_exists fs (candidate (i + k)) = false.
Proof.
  intros Hinj.
  destruct (decide (Forall (λ k, path_exists fs (candidate (i + k)) = true)
                      (seq 0 (S (size fs))))) as [Hall|Hex].
  - exfalso.
    assert (Hsub : list_to_set ((λ k, candidate (i + k)) <$> seq 0 (S (size fs)))
                   ⊆ dom fs).
    { intros p [k [-> Hk]]%elem_of_list_to_set%list_elem_of_fmap.
      rewrite Forall_forall in Hall. apply elem_of_dom, path_exists_true.
      by apply Hall. }
    apply subseteq_size in Hsub. rewrite size_dom in Hsub.
    rewrite size_list_to_set in Hsub.
    + rewrite length_fmap, length_seq in Hsub. lia.
    + apply NoDup_fmap_2; [|apply NoDup_seq].
      intros k1 k2 Heq. apply Hinj in Heq. lia.
  - apply not_Forall_Exists in Hex; [|intros k; apply _].
    apply Exists_exists in Hex as (k & Hk & Hfree).
    apply elem_of_seq in Hk. exists k. split; [lia|].
    simpl in Hfree. by apply not_true_is_false.
Qed.

(** The least free index below a bound. *)
Lemma least_candidate_free (fs : gmap string node) (candidate : nat → string) i n :
  (∃ k, k ≤ n ∧ path_exists fs (candidate (i + k)) = false) →
  ∃ k, k ≤ n ∧ path_exists fs (candidate (i + k)) = false
       ∧ ∀ j, j < k → path_exists fs (candidate (i + j)) = true.
Proof.
  revert i. induction n as [|n IH]; intros i (k & Hk & Hfree).
  - assert (k = 0) as -> by lia. exists 0. split_and!; [done|done|]. intros j Hj. lia.
  - destruct (path_exists fs (candidate (i + 0))) eqn:H0.
    + destruct k as [|k]; [congruence|].
      destruct (IH (S i)) as (k' & Hk' & Hfree' & Htaken').
      { exists k. split; [lia|]. by replace (S i + k) with (i + S k) by lia. }
      exists (S k'). split_and!; [lia| |].
      * by replace (i + S k') with (S i + k') by lia.
      * intros [|j] Hj; [done|].
        replace (i + S j) with (S i + j) by lia. apply Htaken'. lia.
    + exists 0. split_and!; [lia|done|]. intros j Hj. lia.
Qed.

Lemma get_blobpath_spec (fs : gmap string node) (blobdir basename : string) :
  ∃ p, get_blobpath fs blobdir basename = Some p
       ∧ fs !! p = None
       ∧ (p = path_join blobdir basename
          ∨ ∃ i, 1 ≤ i
                 ∧ p = numbered blobdir (stem_ext basename).1 (stem_ext basename).2 i
                 ∧ is_Some (fs !! path_join blobdir basename)
                 ∧ ∀ j, 1 ≤ j < i →
                        is_Some (fs !! numbered blobdir (stem_ext basename).1
                                         (stem_ext basename).2 j)).
Proof.
  unfold get_blobpath. destruct (stem_ext basename) as [stem ext]. cbn [fst snd].
  destruct (path_exists fs (path_join blobdir basename)) eqn:Hplain.
  - destruct (least_candidate_free fs (numbered blobdir stem ext) 1 (size fs))
      as (k & Hk & Hfree & Htaken).
    { apply some_candidate_free, numbered_inj. }
    exists (numbered blobdir stem ext (1 + k)). split_and!.
    + apply (blobpath_loop_first_free (S (size fs)) fs _ _ 1 k);
        [done|done|done|lia].
    + by apply path_exists_false.
    + right. exists (1 + k). split_and!; [lia|done|by apply path_exists_true|].
      intros j Hj. apply path_exists_true.
      replace j with (1 + (j - 1)) by lia. apply Htaken. lia.
  - exists (path_join blobdir basename). split_and!.
    + simpl. by rewrite Hplain.
    + by apply path_exists_false.
    + by left.
Qed.

(** X1.  [get_blobpath] always returns, and the path it returns does not
    exist: the loop over the numbered names ends within one round per
    path of the file system, whatever the directory and the name. *)
Theorem get_blobpath_returns_free_path (fs : gmap string node)
    (blobdir basename : string) :
  ∃ p, get_blobpath fs blobdir basename = Some p ∧ path_exists fs p = false.
Proof.
  destruct (get_blobpath_spec fs blobdir basename) as (p & Hp & Hfree & _).
  exists p. split; [done|]. by apply path_exists_false.
Qed.

(** X2.  [get_blobpath] returns the plain path when it is free; when it is
    taken, it returns the numbered path with the least number, from 1 on,
    that is free: every numbered path before it exists. *)
Theorem get_blobpath_least_free_number (fs : gmap string node)
    (blobdir basename : string) :
  (fs !! path_join blobdir basename = None →
   get_blobpath fs blobdir basename = Some (path_join blobdir basename))
  ∧ (is_Some (fs !! path_join blobdir basename) →
     ∃ i, 1 ≤ i
          ∧ get_blobpath fs blobdir basename
            = Some (numbered blobdir (stem_ext basename).1 (stem_ext basename).2 i)
          ∧ fs !! numbered blobdir (stem_ext basename).1 (stem_ext basename).2 i
            = None
          ∧ ∀ j, 1 ≤ j < i →
                 is_Some (fs !! numbered blobdir (stem_ext basename).1
                                  (stem_ext basename).2 j)).
Proof.
  destruct (get_blobpath_spec fs blobdir basename)
    as (p & Hp & Hfree & [->|(i & Hi & -> & Hplain & Htaken)]).
  - split; [done|]. intros [x Hx]. congruence.
  - split.
    + intros Hnone. destruct Hplain as [x Hx]. congruence.
    + intros _. by exists i.
Qed.

Lemma get_blobpath_least_free_number_witness :
  ∃ i, 1 ≤ i
       ∧ get_blobpath demo_fs "/blobs" "page.html"
         = Some (numbered "/blobs" "page" ".html" i)
       ∧ demo_fs !! numbered "/blobs" "page" ".html" i = None
       ∧ ∀ j, 1 ≤ j < i → is_Some (demo_fs !! numbered "/blobs" "page" ".html" j).
Proof.
  apply (proj2 (get_blobpath_least_free_number demo_fs "/blobs" "page.html")).
  by exists (TextFile "old").
Defined.

(** The third [page.html] of the demo directory. *)
Example get_blobpath_page :
  get_blobpath demo_fs "/blobs" "page.html" = Some "/blobs/page-2.html"
  ∧ get_blobpath demo_fs "/blobs" "archive.tar.gz" = Some "/blobs/archive.tar.gz"
  ∧ get_blobpath demo_fs "" "/blobs" = Some "/blobs-1".
Proof. by vm_compute. Qed.




(** ** Sending HTML *)

Lemma split_dot_cons c (s : string) :
  split_dot (String c s) =
  if bool_decide (String c "" = ".") then ("", Some s)
  else let '(a, r) := split_dot s in (String c a, r).
Proof. reflexivity. Qed.

Lemma ext_ends_with (b r : string) :
  ends_with ("." +:+ r) (stem_ext (b +:+ "." +:+ r)).2.
Proof.
  unfold stem_ext. induction b as [|c b IH].
  - by exists "".
  - rewrite (string_app_cons c b), split_dot_cons. case_bool_decide as Hc.
    + exists ("." +:+ b). by rewrite string_app_assoc.
    + by destruct (split_dot (b +:+ "." +:+ r)) as [a [e|]].
Qed.

Lemma path_join_ends_with (suffix a b : string) :
  ends_with suffix b → ends_with suffix (path_join a b).
Proof.
  intros [pre ->].
  destruct (path_join_prefix a (starts_with_sep (pre +:+ suffix))) as [pre' Hpre].
  rewrite (Hpre _ eq_refl). exists (pre' +:+ pre). by rewrite string_app_assoc.
Qed.

Lemma get_blobpath_ends_with (fs : gmap string node) (blobdir b r p : string) :
  get_blobpath fs blobdir (b +:+ "." +:+ r) = Some p → ends_with ("." +:+ r) p.
Proof.
  intros Hp.
  destruct (get_blobpath_spec fs blobdir (b +:+ "." +:+ r))
    as (p' & Hp' & _ & [->|(i & _ & -> & _)]);
    rewrite Hp in Hp'; injection Hp' as ->.
  - apply path_join_ends_with. by exists b.
  - apply path_join_ends_with.
    destruct (ext_ends_with b r) as [pre ->].
    exists ((stem_ext (b +:+ "." +:+ r)).1 +:+ "-" +:+ pretty i +:+ pre).
    by rewrite !string_app_assoc.
Qed.

Lemma send_html_spec (blobdir : string) (d : Disk) (html basename : string)
    (user_agent : option string) :
  ∃ p content mime,
    send_html blobdir d html basename user_agent
      = Some (p, {| files := <[p := content]> (files d);
                    sent := sent d ++ [(p, mime)] |})
    ∧ files d !! p = None
    ∧ (user_agent = Some "zhv" →
       content = ZipFile [("index.html", html)] ∧ mime = None
       ∧ ends_with ".htmlzip" p)
    ∧ (user_agent ≠ Some "zhv" →
       content = TextFile html ∧ mime = Some "text/html"
       ∧ ends_with ".html" p).
Proof.
  unfold send_html. case_bool_decide as Hua.
  - destruct (get_blobpath_spec (files d) blobdir (basename +:+ ".htmlzip"))
      as (p & Hp & Hfree & _).
    exists p, (ZipFile [("index.html", html)]), None. rewrite Hp. simpl.
    split_and!; [done|done| |done].
    intros _. split_and!; [done|done|].
    by apply (get_blobpath_ends_with (files d) blobdir basename "htmlzip").
  - destruct (get_blobpath_spec (files d) blobdir (basename +:+ ".html"))
      as (p & Hp & Hfree & _).
    exists p, (TextFile html), (Some "text/html"). rewrite Hp. simpl.
    split_and!; [done|done|done|].
    intros _. split_and!; [done|done|].
    by apply (get_blobpath_ends_with (files d) blobdir basename "html").
Qed.


(** X5.  The tag selects the encoding.  With the tag [zhv] the page is
    written as a zip archive whose one member [index.html] holds it, to a
    path that ends in [.htmlzip], and is sent without a MIME type.  With
    any other tag, [unknow] and an unset tag among them, the page is
    written as it is to a path that ends in [.html] and sent as
    [text/html]. *)
Theorem send_html_encoding_by_tag (blobdir : string) (d : Disk)
    (html basename : string) (user_agent : option string) (p : string) (d' : Disk) :
  send_html blobdir d html basename user_agent = Some (p, d') →
  (user_agent = Some "zhv" →
   files d' !! p = Some (ZipFile [("index.html", html)])
   ∧ sent d' = sent d ++ [(p, None)]
   ∧ ends_with ".htmlzip" p)
  ∧ (user_agent ≠ Some "zhv" →
     files d' !! p = Some (TextFile html)
     ∧ sent d' = sent d ++ [(p, Some "text/html")]
     ∧ ends_with ".html" p).
Proof.
  intros Hsend.
  destruct (send_html_spec blobdir d html basename user_agent)
    as (p0 & content & mime & Hsend0 & _ & Hzip & Htext).
  rewrite Hsend in Hsend0. injection Hsend0 as -> ->. simpl.
  split; intros Hua.
  - destruct (Hzip Hua) as (-> & -> & Hend).
    by rewrite lookup_insert_eq.
  - destruct (Htext Hua) as (-> & -> & Hend).
    by rewrite lookup_insert_eq.
Qed.

Lemma send_html_encoding_by_tag_witness :
  files demo_disk_1 !! "/blobs/page-2.html" = Some (TextFile "<p>hi</p>")
  ∧ sent demo_disk_1 = sent demo_disk ++ [("/blobs/page-2.html", Some "text/html")]
  ∧ ends_with ".html" "/blobs/page-2.html".
Proof.
  refine (proj2 (send_html_encoding_by_tag "/blobs" demo_disk "<p>hi</p>" "page"
                   (Some "unknow") "/blobs/page-2.html" demo_disk_1 _) _).
  - by vm_compute.
  - discriminate.
Defined.

(** X6.  Two calls of [send_html] in a row never write the same path, even
    for the same name and tag, and the file the first call wrote is still
    there, unchanged, after the second. *)
Theorem send_html_twice_distinct (blobdir : string) (d d1 d2 : Disk)
    (html1 basename1 html2 basename2 : string) (ua1 ua2 : option string)
    (p1 p2 : string) :
  send_html blobdir d html1 basename1 ua1 = Some (p1, d1) →
  send_html blobdir d1 html2 basename2 ua2 = Some (p2, d2) →
  p1 ≠ p2
  ∧ is_Some (files d1 !! p1)
  ∧ files d2 !! p1 = files d1 !! p1
  ∧ ∃ m1 m2, sent d2 = sent d ++ [(p1, m1); (p2, m2)].
Proof.
  intros H1 H2.
  destruct (send_html_spec blobdir d html1 basename1 ua1)
    as (q1 & c1 & m1 & Hs1 & Hfree1 & _).
  rewrite H1 in Hs1. injection Hs1 as <- Hd1. subst d1.
  destruct (send_html_spec blobdir
              {| files := <[p1 := c1]> (files d); sent := sent d ++ [(p1, m1)] |}
              html2 basename2 ua2)
    as (q2 & c2 & m2 & Hs2 & Hfree2 & _).
  rewrite H2 in Hs2. injection Hs2 as <- Hd2. subst d2. simpl in *.
  assert (Hne : p1 ≠ p2).
  { intros ->. by rewrite lookup_insert_eq in Hfree2. }
  split_and!; [done| | |].
  - rewrite lookup_insert_eq. by eexists.
  - by rewrite lookup_insert_ne.
  - exists m1, m2. by rewrite <- app_assoc.
Qed.

Lemma send_html_twice_distinct_witness :
  "/blobs/page-2.html" ≠ "/blobs/page-3.html"
  ∧ is_Some (files demo_disk_1 !! "/blobs/page-2.html")
  ∧ files demo_disk_2 !! "/blobs/page-2.html"
    = files demo_disk_1 !! "/blobs/page-2.html"
  ∧ ∃ m1 m2, sent demo_disk_2
             = sent demo_disk
               ++ [("/blobs/page-2.html", m1); ("/blobs/page-3.html", m2)].
Proof.
  apply (send_html_twice_distinct "/blobs" demo_disk demo_disk_1 demo_disk_2
           "<p>hi</p>" "page" "<p>hi</p>" "page" None None
           "/blobs/page-2.html" "/blobs/page-3.html"); by vm_compute.
Defined.

Lemma on_command_result_message {PS} (calls : Callables PS) get_args self msg
    text ps v :
  chat_version msg = Some v →
  (result (on_command calls get_args self msg text ps)).2
    = set_user_agent (origin_tag get_args (start_text msg text)) msg.
Proof.
  intros Hv. rewrite (on_command_tagged calls get_args self msg text ps v Hv).
  pose proof (command_stages_shape calls get_args self (elements (_cdl self))
                (set_user_agent (origin_tag get_args (start_text msg text)) msg)
                (command_text get_args (start_text msg text)) ps) as Hs.
  destruct (detected_loop calls _ _ _ _ ps) as [[[t|] ps1] tr1].
  - by destruct Hs as (p & body & -> & _).
  - by destruct Hs as (body & -> & _).
Qed.

(** X7.  A page sent with the tag [on_command] left on the message is
    compressed exactly when the command carried the marker: with the
    marker matched the file is the zip archive, at a path ending in
    [.htmlzip]; without it, the tag being [unknow], the file is the plain
    page at a path ending in [.html]. *)
Theorem reply_compressed_iff_marker {PS} (calls : Callables PS)
    (get_args : string → string → option string)
    (self : SimpleBot) (msg : Message) (text : option string) (ps : PS)
    (v blobdir : string) (d : Disk) (html basename p : string) (d' : Disk) :
  chat_version msg = Some v →
  send_html blobdir d html basename
    (user_agent (result (on_command calls get_args self msg text ps)).2)
    = Some (p, d') →
  (is_Some (get_args "/z" (start_text msg text)) →
   files d' !! p = Some (ZipFile [("index.html", html)])
   ∧ ends_with ".htmlzip" p)
  ∧ (get_args "/z" (start_text msg text) = None →
     files d' !! p = Some (TextFile html)
     ∧ ends_with ".html" p).
Proof.
  intros Hv. rewrite (on_command_result_message calls get_args self msg text ps v Hv).
  unfold origin_tag. simpl. intros Hsend.
  destruct (send_html_spec blobdir d html basename
              (Some match get_args "/z" (start_text msg text) with
                    | Some _ => "zhv"
                    | None => "unknow"
                    end))
    as (p0 & content & mime & Hsend0 & _ & Hzip & Htext).
  rewrite Hsend in Hsend0. injection Hsend0 as -> ->. simpl.
  rewrite lookup_insert_eq.
  split.
  - intros [real Hz]. rewrite Hz in Hzip. by destruct (Hzip eq_refl) as (-> & _ & ?).
  - intros Hz. rewrite Hz in Htext.
    assert (Hne : Some "unknow" ≠ Some "zhv") by discriminate.
    by destruct (Htext Hne) as (-> & _ & ?).
Qed.

Lemma reply_compressed_iff_marker_witness :
  files {| files := <["/blobs/page.htmlzip" := ZipFile [("index.html", "<p>hi</p>")]]>
                      demo_fs;
           sent := [("/blobs/page.htmlzip", None)] |}
    !! "/blobs/page.htmlzip" = Some (ZipFile [("index.html", "<p>hi</p>")])
  ∧ ends_with ".htmlzip" "/blobs/page.htmlzip".
Proof.
  refine (proj1 (reply_compressed_iff_marker demo_calls get_args_spec (ping_bot 1)
           (chat_msg "/z /ping") None 0 "1.0" "/blobs" demo_disk "<p>hi</p>" "page"
           "/blobs/page.htmlzip"
           {| files := <["/blobs/page.htmlzip"
                           := ZipFile [("index.html", "<p>hi</p>")]]> demo_fs;
              sent := [("/blobs/page.htmlzip", None)] |} eq_refl _) _).
  - by vm_compute.
  - by exists "/ping".
Defined.

(** ** Loading and starting *)

Lemma load_loop_spec {PS} (entry_points : list (EntryPoint PS))
    (plugins : list (Plugin PS)) (ps : PS) :
  result (load_loop entry_points plugins ps)
    = plugins ++ omap returned (load_outcomes entry_points ps)
  ∧ trace (load_loop entry_points plugins ps)
    = LogException <$> omap raised (load_outcomes entry_points ps).
Proof.
  revert plugins ps.
  induction entry_points as [|ep rest IH]; intros plugins ps; simpl.
  - by rewrite app_nil_r.
  - unfold bind, emit, ret, result, trace.
    destruct (ep ps) as [[plugin|ex] ps1]; simpl.
    + destruct (IH (plugins ++ [plugin]) ps1) as [Hr Ht].
      unfold result, trace in *.
      destruct (load_loop rest (plugins ++ [plugin]) ps1) as [[r ps2] tr].
      simpl in *. by rewrite Hr, Ht, <- app_assoc.
    + destruct (IH plugins ps1) as [Hr Ht]. unfold result, trace in *.
      destruct (load_loop rest plugins ps1) as [[r ps2] tr].
      simpl in *. by rewrite Hr, Ht.
Qed.

(** X8.  [load_plugins] tries every entry point, in order: the plugin list
    is made of the plugins that loaded, in the order of their entry
    points, and each entry point that raised is logged, once and in that
    order, without keeping the ones after it from loading.  Plugins and
    logged exceptions together are as many as the entry points. *)
Theorem load_plugins_skips_failures {PS} (entry_points : list (EntryPoint PS))
    (ps : PS) :
  result (load_plugins entry_points ps)
    = omap returned (load_outcomes entry_points ps)
  ∧ trace (load_plugins entry_points ps)
    = LogException <$> omap raised (load_outcomes entry_points ps)
  ∧ length (result (load_plugins entry_points ps))
    + length (trace (load_plugins entry_points ps))
    = length entry_points.
Proof.
  destruct (load_loop_spec entry_points [] ps) as [Hr Ht].
  unfold load_plugins. rewrite Hr, Ht. split_and!; [done|done|].
  rewrite length_fmap. simpl. clear.
  revert ps. induction entry_points as [|ep rest IH]; intros ps; simpl; [done|].
  destruct (ep ps) as [[plugin|ex] ps1]; specialize (IH ps1);
    unfold omap in *; simpl in *; lia.
Qed.

(** The demo entry points: the first and the third load. *)
Example load_plugins_demo :
  name <$> result (load_plugins demo_entry_points 0) = ["first"; "third"]
  ∧ trace (load_plugins demo_entry_points 0) = [LogException "import failed"]
  ∧ final (load_plugins demo_entry_points 0) = 2.
Proof. by vm_compute. Qed.

Lemma activate_plugins_app {PS} (pre post : list (Plugin PS)) s :
  activate_plugins (pre ++ post) s =
    match activate_plugins pre s with
    | (Returned _, s1, tr1) =>
        let '(r, s2, tr2) := activate_plugins post s1 in (r, s2, tr1 ++ tr2)
    | (Raised ex, s1, tr1) => (Raised ex, s1, tr1)
    end.
Proof.
  revert s. induction pre as [|p pre IH]; intros s; simpl.
  - unfold ret. by destruct (activate_plugins post s) as [[r s2] tr2].
  - unfold bind, call_activate, emit, ret.
    destruct (activate p s.1 s.2) as [[[]|ex] s1]; simpl; [|done].
    rewrite IH. destruct (activate_plugins pre s1) as [[[[]|ex] s2] tr1]; [|done].
    by destruct (activate_plugins post s2) as [[r s3] tr2].
Qed.

(** X9.  When the activation hook of a plugin raises, [activate_plugins]
    and [start] stop there and the exception surfaces: the plugins after
    it are not activated, [DeltaBot.start] is not run, and no plugin, not
    even those already activated, is deactivated. *)
Theorem start_activation_fault_surfaces {PS}
    (super_start : M (SimpleBot * PS) (outcome unit))
    (plugins pre post : list (Plugin PS)) (p : Plugin PS) (ex : exn)
    (s s1 s2 : SimpleBot * PS) (tr1 : list event) :
  plugins = pre ++ p :: post →
  activate_plugins pre s = (Returned tt, s1, tr1) →
  activate p s1.1 s1.2 = (Raised ex, s2) →
  activate_plugins plugins s = (Raised ex, s2, tr1 ++ [CallActivate (name p)])
  ∧ start super_start plugins s = (Raised ex, s2, tr1 ++ [CallActivate (name p)])
  ∧ List.filter is_lifecycle_call (trace (start super_start plugins s))
    = (λ q, CallActivate (name q)) <$> (pre ++ [p]).
Proof.
  intros -> Hpre Hp.
  assert (Hact : activate_plugins (pre ++ p :: post) s
                 = (Raised ex, s2, tr1 ++ [CallActivate (name p)])).
  { rewrite activate_plugins_app, Hpre. simpl.
    unfold bind, call_activate, ret. by rewrite Hp. }
  split_and!; [done| |].
  - unfold start, bind, ret. rewrite Hact. simpl. by rewrite app_nil_r.
  - unfold start, bind, ret, trace. rewrite Hact. simpl. rewrite app_nil_r.
    pose proof (activate_plugins_calls pre s) as Hc.
    unfold result, trace in Hc. rewrite Hpre in Hc. simpl in Hc.
    rewrite Hc by done. rewrite fmap_app, List.filter_app. simpl. f_equal.
    clear. induction pre as [|q pre IH]; simpl; [done|]. by f_equal.
Qed.

Lemma start_activation_fault_surfaces_witness :
  start failing_super_start
    [demo_plugin "first" false;
     {| name := "broken"; activate bot k := (Raised "no database", (bot, k));
        deactivate bot k := (Returned tt, (bot, k)) |};
     demo_plugin "third" false] (empty_bot, 0)
  = (Raised "no database", (add_on_msg_detected_listener 1 empty_bot, 1),
     [CallActivate "first"] ++ [CallActivate "broken"]).
Proof.
  refine (proj1 (proj2 (start_activation_fault_surfaces failing_super_start _
    [demo_plugin "first" false] [demo_plugin "third" false]
    {| name := "broken"; activate bot k := (Raised "no database", (bot, k));
       deactivate bot k := (Returned tt, (bot, k)) |} "no database"
    (empty_bot, 0) (add_on_msg_detected_listener 1 empty_bot, 1)
    (add_on_msg_detected_listener 1 empty_bot, 1) [CallActivate "first"]
    eq_refl eq_refl eq_refl))).
Defined.

(** X10.  When every activation returns, [start] runs [DeltaBot.start] and
    then, whether that returned or raised, deactivates every plugin in
    load order; what [start] returns or raises is what [DeltaBot.start]
    returned or raised. *)
Theorem start_deactivates_even_on_failure {PS}
    (super_start : M (SimpleBot * PS) (outcome unit))
    (plugins : list (Plugin PS)) (s s1 : SimpleBot * PS) (tr1 : list event) :
  activate_plugins plugins s = (Returned tt, s1, tr1) →
  result (start super_start plugins s) = result (super_start s1)
  ∧ trace (start super_start plugins s)
    = tr1 ++ trace (super_start s1)
        ++ trace (deactivate_plugins plugins (final (super_start s1)))
  ∧ List.filter is_lifecycle_call
      (trace (deactivate_plugins plugins (final (super_start s1))))
    = (λ p, CallDeactivate (name p)) <$> plugins.
Proof.
  intros Hact. unfold start, bind, ret, result, trace, final. rewrite Hact.
  pose proof (deactivate_plugins_calls plugins (super_start s1).1.2) as Hd.
  unfold trace in Hd.
  destruct (super_start s1) as [[r' s2] tr2]. simpl in *.
  destruct (deactivate_plugins plugins s2) as [[[] s3] tr3]. simpl in *.
  split_and!; [done| |done]. by rewrite app_nil_r.
Qed.

Lemma start_deactivates_even_on_failure_witness :
  result (start failing_super_start demo_plugins (empty_bot, 0))
    = Raised "connection lost"
  ∧ trace (start failing_super_start demo_plugins (empty_bot, 0))
    = [CallActivate "first"; CallActivate "second"; CallActivate "third";
       LogDebug "serving";
       CallDeactivate "first"; CallDeactivate "second";
       LogException "deactivation failed"; CallDeactivate "third"].
Proof.
  pose proof (start_deactivates_even_on_failure failing_super_start demo_plugins
                (empty_bot, 0) _ _ eq_refl) as (Hr & Ht & _).
  split; [exact Hr | exact Ht].
Defined.

(** ** Who is called in a dispatch *)

Lemma detected_loop_callees {PS} (calls : Callables PS) rejected listeners msg
    text ps :
  match detected_loop calls rejected listeners msg text ps with
  | (Some _, _, tr) => omap detected_callee tr = listeners
  | (None, _, tr) => omap detected_callee tr `prefix_of` listeners
  end.
Proof.
  revert text ps. induction listeners as [|l rest IH]; intros text ps; simpl.
  - done.
  - unfold bind, call_detected, emit, ret.
    destruct (detected_listener calls l msg text ps) as [[[t|]|ex] ps1]; simpl.
    + specialize (IH t ps1).
      destruct (detected_loop _ _ rest _ _ _) as [[[t1|] ps2] tr1]; simpl.
      * by f_equal.
      * by apply prefix_cons.
    + apply prefix_cons, prefix_nil.
    + specialize (IH text ps1).
      destruct (detected_loop _ _ rest _ _ _) as [[[t1|] ps2] tr1]; simpl.
      * by f_equal.
      * by apply prefix_cons.
Qed.

Lemma processed_loop_calls {PS} (calls : Callables PS) listeners msg processed ps :
  List.filter is_processed_call (trace (processed_loop calls listeners msg processed ps))
  = (λ l, CallProcessed l msg processed) <$> listeners.
Proof.
  revert ps. induction listeners as [|l rest IH]; intros ps; simpl; [done|].
  unfold bind, call_processed, emit, ret, trace.
  destruct (processed_listener calls l msg processed ps) as [[[]|ex] ps1]; simpl;
    specialize (IH ps1); unfold trace in IH;
    destruct (processed_loop _ rest _ _ _) as [[[] ps2] tr]; simpl in *;
    by rewrite IH.
Qed.

Lemma loop_events_no_callee kind (callee : event → option callable) msg tr :
  Forall (loop_event kind msg) tr →
  callee (LogDebug "") = None → callee (LogException "") = None →
  (∀ e, kind e = true → callee e = None) →
  (∀ s, callee (LogDebug s) = callee (LogDebug "")) →
  (∀ ex, callee (LogException ex) = callee (LogException "")) →
  omap callee tr = [].
Proof.
  intros Htr Hd Hx Hk Hd' Hx'.
  induction Htr as [|e tr He _ IH]; [done|].
  simpl.
  destruct e; simpl in He;
    [by rewrite Hd', Hd | by rewrite Hx', Hx | ..];
    destruct He as [He _]; by rewrite (Hk _ He).
Qed.

Ltac vanish H :=
  first
    [ rewrite (loop_events_filter _ _ _ _ H)
        by first [done | by intros []]
    | rewrite (loop_events_no_callee _ _ _ _ H)
        by first [done | by intros []] ].

(** X11.  In a dispatch that completes, every processed listener is
    called exactly once, in the iteration order of its set, with the
    message and the final [processed], whether or not listeners before it
    raised; in a dispatch that is discarded none is called.  This holds
    for messages with [_mpl] and for commands with [_cpl]. *)
Theorem processed_listeners_each_called_once {PS} (calls : Callables PS)
    (get_args : string → string → option string)
    (self : SimpleBot) (msg : Message) (text : option string) (ps : PS) :
  match result (on_message calls self msg text ps) with
  | (Completed p, m) =>
      List.filter is_processed_call (trace (on_message calls self msg text ps))
      = (λ l, CallProcessed l m p) <$> elements (_mpl self)
  | _ =>
      List.filter is_processed_call (trace (on_message calls self msg text ps)) = []
  end
  ∧
  match result (on_command calls get_args self msg text ps) with
  | (Completed p, m) =>
      List.filter is_processed_call
        (trace (on_command calls get_args self msg text ps))
      = (λ l, CallProcessed l m p) <$> elements (_cpl self)
  | _ =>
      List.filter is_processed_call
        (trace (on_command calls get_args self msg text ps)) = []
  end.
Proof.
  split.
  - destruct (chat_version msg) as [v|] eqn:Hv.
    + pose proof (detected_loop_shape calls "Message rejected"
                    (elements (_mdl self)) msg (start_text msg text) ps) as Hs.
      destruct (detected_loop calls "Message rejected" (elements (_mdl self)) msg
                  (start_text msg text) ps) as [[[t|] ps1] tr1] eqn:Hd.
      * rewrite (on_message_accepted calls self msg text ps v t ps1 tr1 Hv Hd).
        pose proof (filter_loop_events calls (filters self) msg t false ps1) as Hf.
        unfold trace in Hf.
        destruct (filter_loop calls _ msg t false ps1) as [[p ps2] tr2].
        pose proof (processed_loop_calls calls (elements (_mpl self)) msg p ps2) as Hp.
        unfold trace in Hp.
        destruct (processed_loop calls _ msg p ps2) as [[[] ps3] tr3].
        unfold result, trace. simpl in *.
        rewrite !List.filter_app, Hp. vanish Hs. vanish Hf.
        destruct p; simpl; by rewrite app_nil_r.
      * rewrite (on_message_rejected calls self msg text ps v ps1 tr1 Hv Hd).
        destruct Hs as (body & -> & Hbody). unfold result, trace. simpl.
        rewrite List.filter_app. by vanish Hbody.
    + unfold on_message, bind, emit, ret. by rewrite Hv.
  - destruct (chat_version msg) as [v|] eqn:Hv.
    + rewrite (on_command_tagged calls get_args self msg text ps v Hv).
      set (msg' := set_user_agent _ msg). set (text' := command_text _ _).
      pose proof (detected_loop_shape calls "Command rejected"
                    (elements (_cdl self)) msg' text' ps) as Hs.
      destruct (detected_loop calls "Command rejected" (elements (_cdl self)) msg'
                  text' ps) as [[[t|] ps1] tr1] eqn:Hd.
      * rewrite (command_stages_accepted calls get_args self _ msg' text' ps
                   t ps1 tr1 Hd).
        pose proof (command_loop_events calls get_args (commands self)
                      (dict_keys (commands self)) msg' t ps1) as Hf.
        unfold trace in Hf.
        destruct (command_loop calls _ _ _ msg' t ps1) as [[p ps2] tr2].
        pose proof (processed_loop_calls calls (elements (_cpl self)) msg' p ps2)
          as Hp.
        unfold trace in Hp.
        destruct (processed_loop calls _ msg' p ps2) as [[[] ps3] tr3].
        unfold result, trace. simpl in *.
        rewrite !List.filter_app, Hp. vanish Hs. vanish Hf.
        destruct p; simpl; by rewrite app_nil_r.
      * rewrite (command_stages_rejected calls get_args self _ msg' text' ps
                   ps1 tr1 Hd).
        destruct Hs as (body & -> & Hbody). unfold result, trace. simpl.
        rewrite List.filter_app. by vanish Hbody.
    + unfold on_command, bind, emit, ret. by rewrite Hv.
Qed.

Lemma on_message_detected_callees {PS} (calls : Callables PS) self msg text ps :
  omap detected_callee (trace (on_message calls self msg text ps))
    `prefix_of` elements (_mdl self)
  ∧ ∀ p m, result (on_message calls self msg text ps) = (Completed p, m) →
           omap detected_callee (trace (on_message calls self msg text ps))
           = elements (_mdl self).
Proof.
  destruct (chat_version msg) as [v|] eqn:Hv.
  - pose proof (detected_loop_callees calls "Message rejected"
                  (elements (_mdl self)) msg (start_text msg text) ps) as Hc.
    destruct (detected_loop calls "Message rejected" (elements (_mdl self)) msg
                (start_text msg text) ps) as [[[t|] ps1] tr1] eqn:Hd.
    + rewrite (on_message_accepted calls self msg text ps v t ps1 tr1 Hv Hd).
      pose proof (filter_loop_events calls (filters self) msg t false ps1) as Hf.
      unfold trace in Hf.
      destruct (filter_loop calls _ msg t false ps1) as [[p ps2] tr2].
      pose proof (processed_loop_events calls (elements (_mpl self)) msg p ps2) as Hp.
      unfold trace in Hp.
      destruct (processed_loop calls _ msg p ps2) as [[[] ps3] tr3].
      unfold result, trace. simpl in *.
      assert (Heq : omap detected_callee
                      (tr1 ++ tr2
                       ++ (if p then [] else [LogDebug "Message was not processed"])
                       ++ tr3 ++ [MarkSeenMessages msg]) = elements (_mdl self)).
      { rewrite !omap_app, Hc. vanish Hf. vanish Hp.
        destruct p; simpl; by rewrite app_nil_r. }
      unfold omap in Heq |- *. rewrite Heq. by split.
    + rewrite (on_message_rejected calls self msg text ps v ps1 tr1 Hv Hd).
      unfold result, trace. simpl. by split.
  - unfold on_message, bind, emit, ret. rewrite Hv. unfold result, trace. simpl.
    split; [apply prefix_nil|done].
Qed.

Lemma on_command_detected_callees {PS} (calls : Callables PS) get_args self msg
    text ps :
  omap detected_callee (trace (on_command calls get_args self msg text ps))
    `prefix_of` elements (_cdl self)
  ∧ ∀ p m, result (on_command calls get_args self msg text ps) = (Completed p, m) →
           omap detected_callee (trace (on_command calls get_args self msg text ps))
           = elements (_cdl self).
Proof.
  destruct (chat_version msg) as [v|] eqn:Hv.
  - rewrite (on_command_tagged calls get_args self msg text ps v Hv).
    set (msg' := set_user_agent _ msg). set (text' := command_text _ _).
    pose proof (detected_loop_callees calls "Command rejected"
                  (elements (_cdl self)) msg' text' ps) as Hc.
    destruct (detected_loop calls "Command rejected" (elements (_cdl self)) msg'
                text' ps) as [[[t|] ps1] tr1] eqn:Hd.
    + rewrite (command_stages_accepted calls get_args self _ msg' text' ps
                 t ps1 tr1 Hd).
      pose proof (command_loop_events calls get_args (commands self)
                    (dict_keys (commands self)) msg' t ps1) as Hf.
      unfold trace in Hf.
      destruct (command_loop calls _ _ _ msg' t ps1) as [[p ps2] tr2].
      pose proof (processed_loop_events calls (elements (_cpl self)) msg' p ps2)
        as Hp.
      unfold trace in Hp.
      destruct (processed_loop calls _ msg' p ps2) as [[[] ps3] tr3].
      unfold result, trace. simpl in *.
      assert (Heq : omap detected_callee
                      (tr1 ++ tr2
                       ++ (if p then [] else [LogDebug "Command was not processed"])
                       ++ tr3 ++ [MarkSeenMessages msg']) = elements (_cdl self)).
      { rewrite !omap_app, Hc. vanish Hf. vanish Hp.
        destruct p; simpl; by rewrite app_nil_r. }
      unfold omap in Heq |- *. rewrite Heq. by split.
    + rewrite (command_stages_rejected calls get_args self _ msg' text' ps
                 ps1 tr1 Hd).
      unfold result, trace. simpl. by split.
  - unfold on_command, bind, emit, ret. rewrite Hv. unfold result, trace. simpl.
    split; [apply prefix_nil|done].
Qed.

(** X12.  In a dispatch that completes, every detected listener of the
    pipeline's set was called exactly once, in the iteration order of the
    set, also when some of them raised.  In any dispatch the detected
    listeners called are an initial part of that order, so none is called
    twice and none is called that is not registered. *)
Theorem detected_listeners_each_called_once {PS} (calls : Callables PS)
    (get_args : string → string → option string)
    (self : SimpleBot) (msg : Message) (text : option string) (ps : PS) :
  (omap detected_callee (trace (on_message calls self msg text ps))
     `prefix_of` elements (_mdl self)
   ∧ NoDup (omap detected_callee (trace (on_message calls self msg text ps)))
   ∧ ∀ p m, result (on_message calls self msg text ps) = (Completed p, m) →
            omap detected_callee (trace (on_message calls self msg text ps))
            = elements (_mdl self))
  ∧ (omap detected_callee (trace (on_command calls get_args self msg text ps))
       `prefix_of` elements (_cdl self)
     ∧ NoDup (omap detected_callee
                (trace (on_command calls get_args self msg text ps)))
     ∧ ∀ p m, result (on_command calls get_args self msg text ps) = (Completed p, m) →
              omap detected_callee
                (trace (on_command calls get_args self msg text ps))
              = elements (_cdl self)).
Proof.
  destruct (on_message_detected_callees calls self msg text ps) as [Hm1 Hm2].
  destruct (on_command_detected_callees calls get_args self msg text ps)
    as [Hc1 Hc2].
  split; (split_and!; [done| |done]).
  - destruct Hm1 as [k Hk]. pose proof (NoDup_elements (_mdl self)) as Hnd.
    rewrite Hk in Hnd. by apply NoDup_app in Hnd as (? & _).
  - destruct Hc1 as [k Hk]. pose proof (NoDup_elements (_cdl self)) as Hnd.
    rewrite Hk in Hnd. by apply NoDup_app in Hnd as (? & _).
Qed.

Lemma detected_listeners_each_called_once_witness :
  omap detected_callee
    (trace (on_message demo_calls faulty_bot (chat_msg "hello") None 0))
  = elements (_mdl faulty_bot).
Proof.
  apply (proj2 (proj2 (proj1 (detected_listeners_each_called_once demo_calls
           get_args_spec faulty_bot (chat_msg "hello") None 0)))
           true (chat_msg "hello") eq_refl).
Defined.

(** X13.  Once a detected listener is removed, no dispatch calls it: after
    [remove_on_msg_detected_listener] no call of [on_message] invokes the
    listener as a detected listener, and likewise for
    [remove_on_cmd_detected_listener] and [on_command]. *)
Theorem removed_listener_never_called {PS} (calls : Callables PS)
    (get_args : string → string → option string)
    (self : SimpleBot) (listener : callable)
    (msg : Message) (text : option string) (ps : PS) :
  (listener ∉ omap detected_callee
     (trace (on_message calls (remove_on_msg_detected_listener listener self)
               msg text ps)))
  ∧ (listener ∉ omap detected_callee
       (trace (on_command calls get_args
                 (remove_on_cmd_detected_listener listener self) msg text ps))).
Proof.
  split.
  - destruct (on_message_detected_callees calls
                (remove_on_msg_detected_listener listener self) msg text ps)
      as [Hpre _].
    intros Hin. eapply elem_of_prefix in Hin; [|exact Hpre].
    apply elem_of_elements in Hin. simpl in Hin.
    apply elem_of_difference in Hin as [_ Hne]. apply Hne.
    by apply elem_of_singleton.
  - destruct (on_command_detected_callees calls get_args
                (remove_on_cmd_detected_listener listener self) msg text ps)
      as [Hpre _].
    intros Hin. eapply elem_of_prefix in Hin; [|exact Hpre].
    apply elem_of_elements in Hin. simpl in Hin.
    apply elem_of_difference in Hin as [_ Hne]. apply Hne.
    by apply elem_of_singleton.
Qed.

Lemma set_add_discard (l : callable) (X : gset callable) :
  l ∉ X → ({[l]} ∪ X) ∖ {[l]} = X.
Proof.
  intros Hl. apply set_eq. intros x.
  rewrite elem_of_difference, elem_of_union, elem_of_singleton.
  destruct (decide (x = l)) as [->|]; intuition congruence.
Qed.

Lemma set_discard_add (l : callable) (X : gset callable) :
  l ∈ X → {[l]} ∪ X ∖ {[l]} = X.
Proof.
  intros Hl. apply set_eq. intros x.
  rewrite elem_of_union, elem_of_difference, elem_of_singleton.
  destruct (decide (x = l)) as [->|]; intuition congruence.
Qed.

(** X14.  Adding and removing undo each other.  In each of the four
    registries, removing a listener right after adding it gives back a bot
    that did not have it, and adding a listener right after removing it
    gives back a bot that had it. *)
Theorem registration_round_trip (listener : callable) (self : SimpleBot) :
  (listener ∉ _mdl self →
   remove_on_msg_detected_listener listener
     (add_on_msg_detected_listener listener self) = self)
  ∧ (listener ∉ _mpl self →
     remove_on_msg_processed_listener listener
       (add_on_msg_processed_listener listener self) = self)
  ∧ (listener ∉ _cdl self →
     remove_on_cmd_detected_listener listener
       (add_on_cmd_detected_listener listener self) = self)
  ∧ (listener ∉ _cpl self →
     remove_on_cmd_processed_listener listener
       (add_on_cmd_processed_listener listener self) = self)
  ∧ (listener ∈ _mdl self →
     add_on_msg_detected_listener listener
       (remove_on_msg_detected_listener listener self) = self)
  ∧ (listener ∈ _mpl self →
     add_on_msg_processed_listener listener
       (remove_on_msg_processed_listener listener self) = self)
  ∧ (listener ∈ _cdl self →
     add_on_cmd_detected_listener listener
       (remove_on_cmd_detected_listener listener self) = self)
  ∧ (listener ∈ _cpl self →
     add_on_cmd_processed_listener listener
       (remove_on_cmd_processed_listener listener self) = self).
Proof.
  destruct self as [mdl mpl cdl cpl cmds fs].
  unfold remove_on_msg_detected_listener, add_on_msg_detected_listener,
    remove_on_msg_processed_listener, add_on_msg_processed_listener,
    remove_on_cmd_detected_listener, add_on_cmd_detected_listener,
    remove_on_cmd_processed_listener, add_on_cmd_processed_listener.
  simpl.
  split_and!; intros Hl;
    first [ by rewrite set_add_discard | by rewrite set_discard_add ].
Qed.

Lemma registration_round_trip_witness :
  remove_on_msg_detected_listener 7 (add_on_msg_detected_listener 7 demo_bot)
    = demo_bot
  ∧ add_on_cmd_processed_listener 5 (remove_on_cmd_processed_listener 5 demo_bot)
    = demo_bot.
Proof.
  pose proof (registration_round_trip 7 demo_bot) as (Hmdl & _).
  pose proof (registration_round_trip 5 demo_bot)
    as (_ & _ & _ & _ & _ & _ & _ & Hcpl).
  split; [apply Hmdl | apply Hcpl]; simpl.
  - by intros ?%elem_of_singleton.
  - by apply elem_of_singleton.
Defined.

(** X15.  The two pipelines do not cross: a message dispatch never calls a
    command handler, and a command dispatch never calls a filter,
    whatever is registered. *)
Theorem pipelines_do_not_cross {PS} (calls : Callables PS)
    (get_args : string → string → option string)
    (self : SimpleBot) (msg : Message) (text : option string) (ps : PS) :
  List.filter is_command_call (trace (on_message calls self msg text ps)) = []
  ∧ List.filter is_filter_call
      (trace (on_command calls get_args self msg text ps)) = [].
Proof.
  split.
  - destruct (chat_version msg) as [v|] eqn:Hv.
    + pose proof (detected_loop_shape calls "Message rejected"
                    (elements (_mdl self)) msg (start_text msg text) ps) as Hs.
      destruct (detected_loop calls "Message rejected" (elements (_mdl self)) msg
                  (start_text msg text) ps) as [[[t|] ps1] tr1] eqn:Hd.
      * rewrite (on_message_accepted calls self msg text ps v t ps1 tr1 Hv Hd).
        pose proof (filter_loop_events calls (filters self) msg t false ps1) as Hf.
        unfold trace in Hf.
        destruct (filter_loop calls _ msg t false ps1) as [[p ps2] tr2].
        pose proof (processed_loop_events calls (elements (_mpl self)) msg p ps2)
          as Hp.
        unfold trace in Hp.
        destruct (processed_loop calls _ msg p ps2) as [[[] ps3] tr3].
        unfold trace. simpl in *.
        rewrite !List.filter_app. vanish Hs. vanish Hf. vanish Hp.
        by destruct p.
      * rewrite (on_message_rejected calls self msg text ps v ps1 tr1 Hv Hd).
        destruct Hs as (body & -> & Hbody). unfold trace. simpl.
        rewrite List.filter_app. by vanish Hbody.
    + unfold on_message, bind, emit, ret. by rewrite Hv.
  - destruct (chat_version msg) as [v|] eqn:Hv.
    + rewrite (on_command_tagged calls get_args self msg text ps v Hv).
      set (msg' := set_user_agent _ msg). set (text' := command_text _ _).
      pose proof (detected_loop_shape calls "Command rejected"
                    (elements (_cdl self)) msg' text' ps) as Hs.
      destruct (detected_loop calls "Command rejected" (elements (_cdl self)) msg'
                  text' ps) as [[[t|] ps1] tr1] eqn:Hd.
      * rewrite (command_stages_accepted calls get_args self _ msg' text' ps
                   t ps1 tr1 Hd).
        pose proof (command_loop_events calls get_args (commands self)
                      (dict_keys (commands self)) msg' t ps1) as Hf.
        unfold trace in Hf.
        destruct (command_loop calls _ _ _ msg' t ps1) as [[p ps2] tr2].
        pose proof (processed_loop_events calls (elements (_cpl self)) msg' p ps2)
          as Hp.
        unfold trace in Hp.
        destruct (processed_loop calls _ msg' p ps2) as [[[] ps3] tr3].
        unfold trace. simpl in *.
        rewrite !List.filter_app. vanish Hs. vanish Hf. vanish Hp.
        by destruct p.
      * rewrite (command_stages_rejected calls get_args self _ msg' text' ps
                   ps1 tr1 Hd).
        destruct Hs as (body & -> & Hbody). unfold trace. simpl.
        rewrite List.filter_app. by vanish Hbody.
    + unfold on_command, bind, emit, ret. by rewrite Hv.
Qed.

(** X16.  A command whose text, as the detected listeners passed it on,
    matches no registered name (an empty [commands] included) calls no
    handler and completes with [processed] false: the debug record says
    so, every processed command listener is told so, and the item is
    marked seen, not deleted. *)
Theorem unmatched_command_unprocessed {PS} (calls : Callables PS)
    (get_args : string → string → option string)
    (self : SimpleBot) (msg : Message) (text : option string) (ps : PS)
    (v t : string) (ps1 : PS) (tr1 : list event) :
  chat_version msg = Some v →
  detected_loop calls "Command rejected" (elements (_cdl self))
    (set_user_agent (origin_tag get_args (start_text msg text)) msg)
    (command_text get_args (start_text msg text)) ps = (Some t, ps1, tr1) →
  (∀ cmd, cmd ∈ dict_keys (commands self) → get_args cmd t = None) →
  on_command calls get_args self msg text ps =
    let msg' := set_user_agent (origin_tag get_args (start_text msg text)) msg in
    let '(_, ps2, tr2) :=
      processed_loop calls (elements (_cpl self)) msg' false ps1 in
    ((Completed false, msg'), ps2,
     LogDebug ("Received command from " +:+ sender_addr msg)
       :: tr1 ++ [LogDebug "Command was not processed"] ++ tr2
       ++ [MarkSeenMessages msg']).
Proof.
  intros Hv Hd Hno.
  rewrite (on_command_tagged calls get_args self msg text ps v Hv).
  rewrite (command_stages_accepted calls get_args self _ _ _ ps t ps1 tr1 Hd).
  rewrite command_loop_no_match by done. simpl.
  by destruct (processed_loop calls _ _ false ps1) as [[[] ps2] tr2].
Qed.

Lemma unmatched_command_unprocessed_witness :
  on_command demo_calls get_args_spec demo_bot (chat_msg "/help") None 0 =
    ((Completed false, set_user_agent "unknow" (chat_msg "/help")), 2,
     [LogDebug "Received command from alice@example.org";
      CallDetected 1 (set_user_agent "unknow" (chat_msg "/help")) "/help";
      LogDebug "Command was not processed";
      CallProcessed 5 (set_user_agent "unknow" (chat_msg "/help")) false;
      MarkSeenMessages (set_user_agent "unknow" (chat_msg "/help"))]).
Proof.
  refine (unmatched_command_unprocessed demo_calls get_args_spec demo_bot
            (chat_msg "/help") None 0 "1.0" "/help!" 1
            [CallDetected 1 (set_user_agent "unknow" (chat_msg "/help")) "/help"]
            eq_refl eq_refl _).
  intros cmd ->%list_elem_of_singleton. reflexivity.
Defined.

(** ** Where a blob path lies *)

Lemma starts_with_sep_stem (basename x : string) :
  starts_with_sep ((stem_ext basename).1 +:+ "-" +:+ x) = starts_with_sep basename.
Proof.
  destruct basename as [|c b]; [done|].
  unfold stem_ext. rewrite split_dot_cons. case_bool_decide as Hc.
  - simpl. by rewrite Hc.
  - by destruct (split_dot b) as [a [e|]].
Qed.

Lemma path_join_relative (a b : string) :
  starts_with_sep b = false → ∃ rest, path_join a b = a +:+ rest.
Proof.
  intros Hb. unfold path_join. rewrite Hb.
  destruct (bool_decide (a = "") || ends_with_sep a); eauto.
Qed.

Lemma path_join_absolute (a b : string) :
  starts_with_sep b = true → path_join a b = b.
Proof. intros Hb. unfold path_join. by rewrite Hb. Qed.

Lemma blobpath_loop_ext fuel fs (c1 c2 : nat → string) path i :
  (∀ j, c1 j = c2 j) →
  blobpath_loop fuel fs c1 path i = blobpath_loop fuel fs c2 path i.
Proof.
  intros Hc. revert path i. induction fuel as [|fuel IH]; intros path i; simpl.
  - done.
  - destruct (path_exists fs path); [|done]. rewrite Hc. apply IH.
Qed.

(** X17.  Whether the returned path lies under the blob directory is
    decided by the name alone.  For a name that does not start with a
    slash the path starts with the blob directory.  For a name that starts
    with a slash the blob directory is ignored, in the plain path and in
    every numbered one: the result is the same for any directory. *)
Theorem get_blobpath_directory (fs : gmap string node) (blobdir basename : string) :
  (starts_with_sep basename = false →
   ∀ p, get_blobpath fs blobdir basename = Some p → ∃ rest, p = blobdir +:+ rest)
  ∧ (starts_with_sep basename = true →
     ∀ other, get_blobpath fs blobdir basename = get_blobpath fs other basename).
Proof.
  split.
  - intros Hrel p Hp.
    destruct (get_blobpath_spec fs blobdir basename)
      as (p' & Hp' & _ & [->|(i & _ & -> & _)]);
      rewrite Hp in Hp'; injection Hp' as ->.
    + by apply path_join_relative.
    + apply path_join_relative. by rewrite starts_with_sep_stem.
  - intros Habs other. unfold get_blobpath.
    rewrite !(path_join_absolute _ basename) by done.
    pose proof (starts_with_sep_stem basename) as Hstem.
    destruct (stem_ext basename) as [stem ext]. simpl in Hstem.
    apply blobpath_loop_ext. intros j. unfold numbered.
    by rewrite !path_join_absolute by (by rewrite Hstem).
Qed.

Lemma get_blobpath_directory_witness :
  (∃ rest, "/blobs/page-2.html" = "/blobs" +:+ rest)
  ∧ get_blobpath demo_fs "/blobs" "/blobs" = get_blobpath demo_fs "/srv" "/blobs".
Proof.
  pose proof (get_blobpath_directory demo_fs "/blobs" "page.html") as [Hrel _].
  pose proof (get_blobpath_directory demo_fs "/blobs" "/blobs") as [_ Habs].
  split.
  - apply Hrel; reflexivity.
  - apply Habs. reflexivity.
Defined.

(** ** The detected command listeners *)

(** X18.  In a command dispatch past the intake guard, the first detected
    command listener that returns [None] ends the dispatch: the origin tag
    has been written, the item is deleted, and no later listener, no
    handler and no processed listener is called; the item is not marked
    seen. *)
Theorem command_rejection_stops {PS} (calls : Callables PS)
    (get_args : string → string → option string)
    (self : SimpleBot) (msg : Message) (text : option string) (ps : PS)
    (v : string) (pre post : list callable) (l : callable)
    (t : string) (ps1 ps2 : PS) (tr1 : list event) :
  chat_version msg = Some v →
  elements (_cdl self) = pre ++ l :: post →
  detected_loop calls "Command rejected" pre
    (set_user_agent (origin_tag get_args (start_text msg text)) msg)
    (command_text get_args (start_text msg text)) ps = (Some t, ps1, tr1) →
  detected_listener calls l
    (set_user_agent (origin_tag get_args (start_text msg text)) msg) t ps1
    = (Returned None, ps2) →
  on_command calls get_args self msg text ps =
    let msg' := set_user_agent (origin_tag get_args (start_text msg text)) msg in
    ((RejectedByListener, msg'), ps2,
     LogDebug ("Received command from " +:+ sender_addr msg)
       :: tr1 ++ [CallDetected l msg' t; LogDebug "Command rejected";
                  DeleteMessages msg']).
Proof.
  intros Hv Hel Hpre Hl.
  rewrite (on_command_tagged calls get_args self msg text ps v Hv).
  unfold command_stages, bind, ret. rewrite Hel, detected_loop_app, Hpre. simpl.
  unfold bind, call_detected, emit, ret. rewrite Hl. simpl.
  by rewrite app_nil_r.
Qed.

Lemma command_rejection_stops_witness :
  on_command demo_calls get_args_spec veto_bot (chat_msg "/z /ping") None 0 =
    ((RejectedByListener, set_user_agent "zhv" (chat_msg "/z /ping")), 2,
     [LogDebug "Received command from alice@example.org";
      CallDetected 4 (set_user_agent "zhv" (chat_msg "/z /ping")) "/ping";
      CallDetected 2 (set_user_agent "zhv" (chat_msg "/z /ping")) "/ping";
      LogDebug "Command rejected";
      DeleteMessages (set_user_agent "zhv" (chat_msg "/z /ping"))]).
Proof.
  apply (command_rejection_stops demo_calls get_args_spec veto_bot
           (chat_msg "/z /ping") None 0 "1.0" [4] [1] 2 "/ping" 1 2
           [CallDetected 4 (set_user_agent "zhv" (chat_msg "/z /ping")) "/ping"]);
    reflexivity.
Defined.

(** X19.  A detected command listener that raises does not end the
    dispatch: its exception is logged and the dispatch goes on, with the
    text as it was before the call, through the listeners after it, the
    handlers, the processed listeners and [mark_seen_messages]. *)
Theorem command_listener_fault_isolated {PS} (calls : Callables PS)
    (get_args : string → string → option string)
    (self : SimpleBot) (msg : Message) (text : option string) (ps : PS)
    (v : string) (pre post : list callable) (l : callable)
    (t : string) (ps1 ps2 : PS) (tr1 : list event) (ex : exn) :
  chat_version msg = Some v →
  elements (_cdl self) = pre ++ l :: post →
  detected_loop calls "Command rejected" pre
    (set_user_agent (origin_tag get_args (start_text msg text)) msg)
    (command_text get_args (start_text msg text)) ps = (Some t, ps1, tr1) →
  detected_listener calls l
    (set_user_agent (origin_tag get_args (start_text msg text)) msg) t ps1
    = (Raised ex, ps2) →
  on_command calls get_args self msg text ps =
    let msg' := set_user_agent (origin_tag get_args (start_text msg text)) msg in
    let '(r, ps3, tr3) := command_stages calls get_args self post msg' t ps2 in
    (r, ps3,
     LogDebug ("Received command from " +:+ sender_addr msg)
       :: tr1 ++ CallDetected l msg' t :: LogException ex :: tr3).
Proof.
  intros Hv Hel Hpre Hl.
  rewrite (on_command_tagged calls get_args self msg text ps v Hv).
  unfold command_stages, bind, ret. rewrite Hel, detected_loop_app, Hpre. simpl.
  unfold bind, call_detected, emit, ret. rewrite Hl. simpl.
  destruct (detected_loop calls _ post _ t ps2) as [[[t'|] ps3] tr3]; simpl.
  - destruct (command_resolution calls get_args self _ t' ps3) as [[r ps4] tr4].
    by rewrite <- app_assoc.
  - by rewrite !app_nil_r.
Qed.

Lemma command_listener_fault_isolated_witness :
  on_command demo_calls get_args_spec faulty_bot (chat_msg "/ping") None 0 =
    ((Completed false, set_user_agent "unknow" (chat_msg "/ping")), 4,
     [LogDebug "Received command from alice@example.org";
      CallDetected 4 (set_user_agent "unknow" (chat_msg "/ping")) "/ping";
      CallDetected 3 (set_user_agent "unknow" (chat_msg "/ping")) "/ping";
      LogException "listener failed";
      CallDetected 1 (set_user_agent "unknow" (chat_msg "/ping")) "/ping";
      LogDebug "Command was not processed";
      CallProcessed 5 (set_user_agent "unknow" (chat_msg "/ping")) false;
      MarkSeenMessages (set_user_agent "unknow" (chat_msg "/ping"))]).
Proof.
  apply (command_listener_fault_isolated demo_calls get_args_spec faulty_bot
           (chat_msg "/ping") None 0 "1.0" [4] [1] 3 "/ping" 1 2
           [CallDetected 4 (set_user_agent "unknow" (chat_msg "/ping")) "/ping"]
           "listener failed");
    reflexivity.
Defined.
